(** * pairing-verifier: the constant-derivation script and the deploy script

    [script/constants.py] derives the fixture of a four-pairing Groth16-style
    check over BN254 with [py_ecc.bn128]; [script/deploy.py] deploys the
    verifier contract.  Python integers are arbitrary-precision, so they are
    embedded as [bigZ]; a Python exception is a [Raise] in the [result]
    monad; the point at infinity is [None], as in the library. *)

From Stdlib Require Import ZArith String List Bool Lia.
From Stdlib Require Import DecimalString.
From Bignums Require Import BigZ.
Import ListNotations.

(** ** Exceptions and the result monad *)

Inductive exception : Type :=
| RecursionError   (* unbounded recursion *)
| AssertionError   (* a failed [assert] *)
| OutOfFuel.       (* a [while] loop that outlived its iteration bound *)

Inductive result (A : Type) : Type :=
| Ok (a : A)
| Raise (e : exception).
Arguments Ok {A} a.
Arguments Raise {A} e.

Definition bind {A B} (r : result A) (k : A -> result B) : result B :=
  match r with
  | Ok a => k a
  | Raise e => Raise e
  end.

Declare Scope py_scope.
Delimit Scope py_scope with py.
Notation "x <- e1 ;; e2" := (bind e1 (fun x => e2))
  (at level 61, e1 at next level, right associativity) : py_scope.
Notation "' pat <- e1 ;; e2" := (bind e1 (fun x => match x with pat => e2 end))
  (at level 61, pat pattern, e1 at next level, right associativity) : py_scope.
Notation "'assert' c ;; e" := (if c then e else Raise AssertionError)
  (at level 61, c at next level, right associativity) : py_scope.

Fixpoint mapM {A B} (f : A -> result B) (l : list A) : result (list B) :=
  match l with
  | [] => Ok []
  | a :: l' => (b <- f a ;; bs <- mapM f l' ;; Ok (b :: bs))%py
  end.

Fixpoint foldM {A B} (f : A -> B -> result A) (l : list B) (a : A) : result A :=
  match l with
  | [] => Ok a
  | b :: l' => (a' <- f a b ;; foldM f l' a')%py
  end.

(** Python's [int]. *)
Definition int : Type := bigZ.

(** [l[i] = f(l[i])] on a Python list. *)
Definition upd {A} (i : nat) (f : A -> A) (l : list A) : list A :=
  firstn i l ++ match skipn i l with [] => [] | a :: t => f a :: t end.

(** [repr] of a Python object, as [print] and f-strings show it.  The
    interpreter's limit on the number of digits of a printed integer is
    not modelled; the numbers of the script have at most 77 digits. *)
Class Repr (A : Type) : Type := repr : A -> string.

#[export] Instance int_Repr : Repr int :=
  fun z => NilZero.string_of_int (Z.to_int (BigZ.to_Z z)).

Fixpoint join (sep : string) (l : list string) : string :=
  match l with
  | [] => EmptyString
  | [s] => s
  | s :: l' => (s ++ sep ++ join sep l')%string
  end.

(** [repr] of a tuple: [(a, b)], and [(a,)] for a single element. *)
Definition repr_tuple (items : list string) : string :=
  match items with
  | [s] => ("(" ++ s ++ ",)")%string
  | _ => ("(" ++ join ", " items ++ ")")%string
  end.

(** ** py_ecc.utils *)

Module utils.
Local Open Scope bigZ_scope.

(** The [while low > 1] loop of [prime_field_inv]. *)
Fixpoint prime_field_inv_loop (fuel : nat) (lm hm low high : int) : result int :=
  if negb (1 <? low) then Ok lm
  else match fuel with
       | O => Raise OutOfFuel
       | S fuel' =>
           let r := high / low in
           let nm := hm - lm * r in
           let new := high - low * r in
           prime_field_inv_loop fuel' nm lm new low
       end.

(** Euclid's remainders shrink by half every two steps. *)
Definition euclid_bound (n : int) : nat :=
  Z.to_nat (2 * Z.log2_up (BigZ.to_Z n) + 2).

(** [a %= n] comes first, so that every multiple of [n] is sent to 0. *)
Definition prime_field_inv (a n : int) : result int :=
  let a := a mod n in
  if a =? 0 then Ok 0
  else (lm <- prime_field_inv_loop (euclid_bound n) 1 0 (a mod n) n ;;
        Ok (lm mod n))%py.

End utils.

(** ** py_ecc.fields: FQ and FQP *)

Module field_elements.
Local Open Scope bigZ_scope.

Definition field_modulus : int :=
  21888242871839275222246405745257275088696311157297823662689037894645226208583.

(** class FQ: [self.n] is kept reduced by the constructor. *)
Record FQ : Type := mkFQ { n : int }.

Definition FQ_of (val : int) : FQ := mkFQ (val mod field_modulus).

Definition FQ_add (self other : FQ) : FQ :=
  FQ_of ((n self + n other) mod field_modulus).
Definition FQ_mul (self other : FQ) : FQ :=
  FQ_of ((n self * n other) mod field_modulus).
(** [k * self] for a Python int [k] ([__rmul__]). *)
Definition FQ_rmul (k : int) (self : FQ) : FQ :=
  FQ_of ((n self * k) mod field_modulus).
Definition FQ_sub (self other : FQ) : FQ :=
  FQ_of ((n self - n other) mod field_modulus).
Definition FQ_div (self other : FQ) : result FQ :=
  (i <- utils.prime_field_inv (n other) field_modulus ;;
   Ok (FQ_of ((n self * i) mod field_modulus)))%py.
Definition FQ_neg (self : FQ) : FQ := FQ_of (- n self).
Definition FQ_eq (self other : FQ) : bool := n self =? n other.

(** [self ** e]: square-and-multiply on the binary digits of [e], one
    call per digit.  The interpreter's recursion limit is not modelled;
    the curve code uses the exponents 2 and 3. *)
Fixpoint FQ_pow_pos (self : FQ) (e : positive) : FQ :=
  match e with
  | xH => FQ_of (n self)
  | xO e' => FQ_pow_pos (FQ_mul self self) e'
  | xI e' => FQ_mul (FQ_pow_pos (FQ_mul self self) e') self
  end.
Definition FQ_pow (self : FQ) (e : N) : FQ :=
  match e with
  | N0 => FQ_of 1
  | Npos p => FQ_pow_pos self p
  end.

#[export] Instance FQ_Repr : Repr FQ := fun x => repr (n x).

(** Polynomials over FQ are lists of coefficients, lowest degree first. *)
Definition get (l : list FQ) (i : nat) : FQ := nth i l (FQ_of 0).

Fixpoint deg_loop (p : list FQ) (d : nat) : nat :=
  match d with
  | O => O
  | S d' => if FQ_eq (get p d) (FQ_of 0) then deg_loop p d' else d
  end.
Definition deg (p : list FQ) : nat := deg_loop p (length p - 1).

Definition poly_rounded_div (a b : list FQ) : result (list FQ) :=
  let dega := deg a in
  let degb := deg b in
  let temp := a in
  let o := repeat (FQ_of 0) (length a) in
  let range := if (dega <? degb)%nat then [] else rev (seq 0 (dega - degb + 1)) in
  (to <- foldM (fun '(temp, o) i =>
            q <- FQ_div (get temp (degb + i)) (get b degb) ;;
            let o := upd i (fun x => FQ_add x q) o in
            let temp := fold_left (fun temp c =>
                          upd (c + i) (fun x => FQ_sub x (get o c)) temp)
                          (seq 0 (degb + 1)) temp in
            Ok (temp, o)) range (temp, o) ;;
   let o := snd to in
   Ok (firstn (deg o + 1) o))%py.

(** class FQP: [coeffs[i]] is the coefficient of the i-th power of the
    adjoined root; [modulus_coeffs] are the low coefficients of its monic
    minimal polynomial. *)
Record FQP : Type := mkFQP { coeffs : list FQ }.

Section FQP.
Variable modulus_coeffs : list int.
Let degree : nat := length modulus_coeffs.

Definition FQP_of (cs : list int) : FQP := mkFQP (map FQ_of cs).

Definition FQP_add (self other : FQP) : FQP :=
    mkFQP (map (fun '(x, y) => FQ_add x y) (combine (coeffs self) (coeffs other))).
Definition FQP_sub (self other : FQP) : FQP :=
    mkFQP (map (fun '(x, y) => FQ_sub x y) (combine (coeffs self) (coeffs other))).
Definition FQP_neg (self : FQP) : FQP := mkFQP (map FQ_neg (coeffs self)).
Definition FQP_rmul (k : int) (self : FQP) : FQP :=
    mkFQP (map (fun c => FQ_rmul k c) (coeffs self)).
Definition FQP_eq (self other : FQP) : bool :=
    forallb (fun '(c1, c2) => FQ_eq c1 c2) (combine (coeffs self) (coeffs other)).

  (** [while len(b) > degree]: every round pops the top coefficient, so
      [k = len(b) - degree] rounds are run. *)
Fixpoint FQP_mul_reduce (k : nat) (b : list FQ) : list FQ :=
    match k with
    | O => b
    | S k' =>
        let exp := (length b - degree - 1)%nat in
        let top := last b (FQ_of 0) in
        let b := removelast b in
        let b := fold_left (fun b i =>
                   upd (exp + i)
                       (fun x => FQ_sub x (FQ_mul top (FQ_of (nth i modulus_coeffs 0)))) b)
                   (seq 0 degree) b in
        FQP_mul_reduce k' b
    end.

Definition FQP_mul (self other : FQP) : FQP :=
    let b := repeat (FQ_of 0) (degree * 2 - 1) in
    let b := fold_left (fun b i =>
               fold_left (fun b j =>
                 upd (i + j)
                     (fun x => FQ_add x (FQ_mul (get (coeffs self) i) (get (coeffs other) j))) b)
                 (seq 0 degree) b)
               (seq 0 degree) b in
    mkFQP (FQP_mul_reduce (length b - degree) b).

Fixpoint FQP_pow_pos (self : FQP) (e : positive) : FQP :=
    match e with
    | xH => mkFQP (coeffs self)
    | xO e' => FQP_pow_pos (FQP_mul self self) e'
    | xI e' => FQP_mul (FQP_pow_pos (FQP_mul self self) e') self
    end.
Definition FQP_pow (self : FQP) (e : N) : FQP :=
    match e with
    | N0 => FQP_of (1 :: repeat 0 (degree - 1))
    | Npos p => FQP_pow_pos self p
    end.

  (** The [while deg(low)] loop of [inv]: extended Euclid on polynomials. *)
Fixpoint FQP_inv_loop (fuel : nat) (lm hm low high : list FQ)
    : result (list FQ * list FQ) :=
    if (deg low =? 0)%nat then Ok (lm, low)
    else match fuel with
         | O => Raise OutOfFuel
         | S fuel' =>
             (r <- poly_rounded_div high low ;;
              let r := r ++ repeat (FQ_of 0) (degree + 1 - length r) in
              let nm := hm in
              let new := high in
              let '(nm, new) :=
                fold_left (fun acc i =>
                  fold_left (fun '(nm, new) j =>
                    (upd (i + j) (fun x => FQ_sub x (FQ_mul (get lm i) (get r j))) nm,
                     upd (i + j) (fun x => FQ_sub x (FQ_mul (get low i) (get r j))) new))
                    (seq 0 (degree + 1 - i)) acc)
                  (seq 0 (degree + 1)) (nm, new) in
              FQP_inv_loop fuel' nm lm new low)%py
         end.

Definition FQP_inv (self : FQP) : result FQP :=
    let lm := FQ_of 1 :: repeat (FQ_of 0) degree in
    let hm := repeat (FQ_of 0) (degree + 1) in
    let low := coeffs self ++ [FQ_of 0] in
    let high := map FQ_of modulus_coeffs ++ [FQ_of 1] in
    ('(lm, low) <- FQP_inv_loop (2 * degree + 2) lm hm low high ;;
     cs <- mapM (fun c => FQ_div c (get low 0)) (firstn degree lm) ;;
     Ok (mkFQP cs))%py.

Definition FQP_div (self other : FQP) : result FQP :=
    (i <- FQP_inv other ;; Ok (FQP_mul self i))%py.
End FQP.

(** [repr(self.coeffs)]: the tuple of coefficients, in storage order. *)
#[export] Instance FQP_Repr : Repr FQP :=
  fun x => repr_tuple (map repr (coeffs x)).

(** class FQ2(FQP): degree 2, modulus [u**2 + 1]. *)
Definition FQ2_MODULUS_COEFFS : list int := [1; 0].
Definition FQ2 : Type := FQP.
Definition FQ2_of : list int -> FQ2 := FQP_of.

(** The operators the curve code uses, shared by FQ and FQ2. *)
Class Field (F : Type) : Type := {
  f_add : F -> F -> F;
  f_sub : F -> F -> F;
  f_mul : F -> F -> F;
  f_rmul : int -> F -> F;
  f_div : F -> F -> result F;
  f_neg : F -> F;
  f_pow : F -> N -> F;
  f_eq : F -> F -> bool
}.

#[export] Instance FQ_Field : Field FQ :=
  {| f_add := FQ_add; f_sub := FQ_sub; f_mul := FQ_mul; f_rmul := FQ_rmul;
     f_div := FQ_div; f_neg := FQ_neg; f_pow := FQ_pow; f_eq := FQ_eq |}.

#[export] Instance FQ2_Field : Field FQ2 :=
  {| f_add := FQP_add; f_sub := FQP_sub; f_mul := FQP_mul FQ2_MODULUS_COEFFS;
     f_rmul := FQP_rmul; f_div := FQP_div FQ2_MODULUS_COEFFS; f_neg := FQP_neg;
     f_pow := FQP_pow FQ2_MODULUS_COEFFS; f_eq := FQP_eq |}.

End field_elements.

(** ** py_ecc.bn128.bn128_curve *)

Module bn128_curve.
Import field_elements.
Local Open Scope bigZ_scope.

Definition field_modulus : int := field_elements.field_modulus.
Definition curve_order : int :=
  21888242871839275222246405745257275088548364400416034343698204186575808495617.

(** A point is [None] (infinity) or an affine pair [(x, y)]. *)
Definition Point2D (F : Type) : Type := option (F * F).

#[export] Instance Point2D_Repr {F} `{Repr F} : Repr (Point2D F) :=
  fun pt => match pt with
            | None => "None"%string
            | Some (x, y) => repr_tuple [repr x; repr y]
            end.

(** Curve is y**2 = x**3 + 3; the twisted curve over FQ2 has b2. *)
Definition b : FQ := FQ_of 3.
Definition b2 : result FQ2 := f_div (FQ2_of [3; 0]) (FQ2_of [9; 1]).

Definition G1 : Point2D FQ := Some (FQ_of 1, FQ_of 2).
Definition G2 : Point2D FQ2 :=
  Some (FQ2_of
          [10857046999023057135944570762232829481370756359578518086990519993285655852781;
           11559732032986387107991004021392285783925812861821192530917403151452391805634],
        FQ2_of
          [8495653923123431417604973247489272438418190587263600148770280649306958101930;
           4082367875863433681332203403145435568316851327593401208105741076214120093531]).

Section Curve.
Context {F : Type} `{Field F}.

Definition is_inf (pt : Point2D F) : bool :=
    match pt with None => true | Some _ => false end.

Definition is_on_curve (pt : Point2D F) (b : F) : bool :=
    match pt with
    | None => true
    | Some (x, y) => f_eq (f_sub (f_pow y 2) (f_pow x 3)) b
    end.

Definition double (pt : Point2D F) : result (Point2D F) :=
    match pt with
    | None => Ok pt
    | Some (x, y) =>
        (m <- f_div (f_rmul 3 (f_pow x 2)) (f_rmul 2 y) ;;
         let newx := f_sub (f_pow m 2) (f_rmul 2 x) in
         let newy := f_sub (f_add (f_mul (f_neg m) newx) (f_mul m x)) y in
         Ok (Some (newx, newy)))%py
    end.

Definition add (p1 p2 : Point2D F) : result (Point2D F) :=
    match p1, p2 with
    | None, _ => Ok p2
    | _, None => Ok p1
    | Some (x1, y1), Some (x2, y2) =>
        if f_eq x2 x1 && f_eq y2 y1 then double p1
        else if f_eq x2 x1 then Ok None
        else
          (m <- f_div (f_sub y2 y1) (f_sub x2 x1) ;;
           let newx := f_sub (f_sub (f_pow m 2) x1) x2 in
           let newy := f_sub (f_add (f_mul (f_neg m) newx) (f_mul m x1)) y1 in
           assert f_eq newy (f_sub (f_add (f_mul (f_neg m) newx) (f_mul m x2)) y2) ;;
           Ok (Some (newx, newy)))%py
    end.

  (** [multiply(pt, n)] recurses on [n // 2], one call per binary digit
      of [n > 0]; for [n < 0] the recursion never reaches 0 or 1.  The
      interpreter's recursion limit is not modelled for [n > 0]; the
      scalars of the script are below 2**254. *)
Fixpoint multiply_pos (pt : Point2D F) (n : positive) : result (Point2D F) :=
    match n with
    | xH => Ok pt
    | xO n' => (d <- double pt ;; multiply_pos d n')%py
    | xI n' => (d <- double pt ;; r <- multiply_pos d n' ;; add r pt)%py
    end.

Definition multiply (pt : Point2D F) (n : int) : result (Point2D F) :=
    match BigZ.to_Z n with
    | Z0 => Ok None
    | Zpos p => multiply_pos pt p
    | Zneg _ => Raise RecursionError
    end.

Definition neg (pt : Point2D F) : Point2D F :=
    match pt with
    | None => None
    | Some (x, y) => Some (x, f_neg y)
    end.

  (** [p1 == p2] on optional pairs of field elements. *)
Definition eq (p1 p2 : Point2D F) : bool :=
    match p1, p2 with
    | None, None => true
    | Some (x1, y1), Some (x2, y2) => f_eq x1 x2 && f_eq y1 y2
    | _, _ => false
    end.

  (** On the curve with coefficient [b] and killed by the group order. *)
Definition in_subgroup (pt : Point2D F) (b : F) : result bool :=
    (r <- multiply pt curve_order ;; Ok (is_on_curve pt b && is_inf r))%py.
End Curve.

Definition in_G1 (pt : Point2D FQ) : result bool := in_subgroup pt b.
Definition in_G2 (pt : Point2D FQ2) : result bool :=
  (b2 <- b2 ;; in_subgroup pt b2)%py.

End bn128_curve.

(** ** script/constants.py *)

Module constants.
Import field_elements bn128_curve.
Local Open Scope bigZ_scope.
Local Open Scope string_scope.

(* Proof *)
Definition _A1 : int := 1.
Definition _B2 : int := 1.
Definition _C1 : int := 1.

(* Verifier Key *)
Definition _a1 : int := 1.
Definition _b2 : int := 1.
Definition _g2 : int := 1.
Definition _D2 : int := 1. (* -1 *)

(* Public inputs *)
Definition _x1 : int := 2.
Definition _x2 : int := 3.
Definition _x3 : int := 4. (* -4 *)

(* Proof *)
Definition A1 : result (Point2D FQ) := multiply G1 _A1.
Definition B2 : result (Point2D FQ2) := multiply G2 _B2.
Definition C1 : result (Point2D FQ) := multiply G1 _C1.

(* Verifier Key *)
Definition a1 : result (Point2D FQ) := multiply G1 _a1.
Definition b2 : result (Point2D FQ2) := multiply G2 _b2.
Definition g2 : result (Point2D FQ2) := multiply G2 _g2.
Definition D2 : result (Point2D FQ2) := (p <- multiply G2 _D2 ;; Ok (neg p))%py.

(* computed in contract, but for reference *)
Definition x1_G1 : result (Point2D FQ) := multiply G1 _x1.
Definition x2_G1 : result (Point2D FQ) := multiply G1 _x2.
Definition x3_G1 : result (Point2D FQ) := (p <- multiply G1 _x3 ;; Ok (neg p))%py.

(** The scalar of the last [print]. *)
Definition x3_printed : int := curve_order - 4.

(** What the [print] calls write, one string per call. *)
Definition stdout : result (list string) :=
  (va1 <- a1 ;; vb2 <- b2 ;; vg2 <- g2 ;; vD2 <- D2 ;;
   vA1 <- A1 ;; vB2 <- B2 ;; vC1 <- C1 ;;
   Ok [ "ALPHA1 (a1): " ++ repr va1;
        "BETA2 (b2): " ++ repr vb2;
        "GAMMA2 (g2): " ++ repr vg2;
        "DELTA2 (D2): " ++ repr vD2;
        String (Ascii.ascii_of_nat 10) "Function Inputs:";
        "A1: " ++ repr vA1;
        "B2: " ++ repr vB2;
        "C1: " ++ repr vC1;
        "x1: " ++ repr _x1;
        "x2: " ++ repr _x2;
        "x3 (as positive mod order): " ++ repr x3_printed ])%py.

End constants.

(** ** script/deploy.py *)

Module deploy.
Section Deploy.
  (** [moccasin.boa_tools.VyperContract] and the constructor arguments of
      a deployment. *)
Variable VyperContract : Type.
Variable Arg : Type.

  (** A script either returns or calls [Verifier.deploy] with some arguments and goes
      on with the contract it gets back. *)
Inductive script (A : Type) : Type :=
  | Return (a : A)
  | Verifier_deploy (args : list Arg) (k : VyperContract -> script A).
Arguments Return {A} a.
Arguments Verifier_deploy {A} args k.

Fixpoint call {A B} (s : script A) (k : A -> script B) : script B :=
    match s with
    | Return a => k a
    | Verifier_deploy args k' => Verifier_deploy args (fun c => call (k' c) k)
    end.

Definition deploy : script VyperContract :=
    Verifier_deploy [] (fun verifier => Return verifier).

Definition moccasin_main : script VyperContract :=
    call deploy (fun r => Return r).

  (** Running a script against a chain: [boa_deploy] is what a
      deployment does to the environment; the log keeps the argument list
      of every deployment made. *)
Variable Env : Type.
Variable boa_deploy : list Arg -> Env -> VyperContract * Env.

Fixpoint run {A} (s : script A) (env : Env) (log : list (list Arg))
    : A * Env * list (list Arg) :=
    match s with
    | Return a => (a, env, log)
    | Verifier_deploy args k =>
        let '(c, env') := boa_deploy args env in
        run (k c) env' (log ++ [args])
    end.
End Deploy.
Arguments Return {VyperContract Arg A} a.
Arguments Verifier_deploy {VyperContract Arg A} args k.
Arguments deploy {VyperContract Arg}.
Arguments moccasin_main {VyperContract Arg}.
Arguments run {VyperContract Arg Env} boa_deploy {A} s env log.
End deploy.

(** ** Well-formed field elements and points *)

Import field_elements bn128_curve.

(** The class invariant of FQ: [n] lies in [0, field_modulus). *)
Definition FQ_reduced (x : FQ) : Prop :=
  (0 <= BigZ.to_Z (n x) < BigZ.to_Z field_elements.field_modulus)%Z.

Definition Point_reduced (pt : Point2D FQ) : Prop :=
  match pt with
  | None => True
  | Some (x, y) => FQ_reduced x /\ FQ_reduced y
  end.

(** The class invariant of FQP: every coefficient is a reduced FQ. *)
Definition FQP_reduced (x : FQP) : Prop := Forall FQ_reduced (coeffs x).

Definition Point2_reduced (pt : Point2D FQ2) : Prop :=
  match pt with
  | None => True
  | Some (x, y) => FQP_reduced x /\ FQP_reduced y
  end.

(** An FQ2 coordinate has exactly two coefficients. *)
Definition FQ2_shaped (pt : Point2D FQ2) : Prop :=
  match pt with
  | None => True
  | Some (x, y) => length (coeffs x) = 2%nat /\ length (coeffs y) = 2%nat
  end.

(** ** The verifier

    The contract [src/Verifier.vy] that [deploy.py] deploys, and the
    pairing precompile it calls. *)

Module Verifier.
Import field_elements bn128_curve.
Local Open Scope bigZ_scope.

(** Modelled from the spec: the Proof record (section 3), missing with
    [src/Verifier.vy]. *)
Record Proof : Type := mkProof {
  A1 : Point2D FQ;
  B2 : Point2D FQ2;
  C1 : Point2D FQ
}.

(** Modelled from the spec: the VerificationKey record (section 3), missing
    with [src/Verifier.vy]. *)
Record VerificationKey : Type := mkVerificationKey {
  alpha1 : Point2D FQ;
  beta2 : Point2D FQ2;
  gamma2 : Point2D FQ2;
  delta2 : Point2D FQ2
}.

(** Modelled from the spec: a public input (section 4.1) is a reduced
    scalar; a designated negative-sign input carries its absolute value
    and contributes the negated point. *)
Inductive PublicInput : Type :=
| Scalar (k : int)
| NegativeSign (k : int).

(** Modelled from the spec: one term of the MSM of section 4.1,
    [scalar_mult(G1, k)] or [negate(scalar_mult(G1, k))]. *)
Definition contribution (x : PublicInput) : result (Point2D FQ) :=
  match x with
  | Scalar k => multiply G1 k
  | NegativeSign k => (p <- multiply G1 k ;; Ok (neg p))%py
  end.

(** Modelled from the spec: [fold] of section 4.1, the sum of the
    contributions, starting from the identity. *)
Definition fold (inputs : list PublicInput) : result (Point2D FQ) :=
  foldM (fun acc x => c <- contribution x ;; add acc c)%py inputs None.

Section Pairing.
  (** The target group and the pairing are the arithmetic primitive of
      section 6, consumed through its interface. *)
Variable GT : Type.
Variable GT_mul : GT -> GT -> GT.
Variable GT_one : GT.
Variable GT_eqb : GT -> GT -> bool.
Variable e : Point2D FQ -> Point2D FQ2 -> GT.

  (** Modelled from the spec: the product of the four pairings of
      section 4.2, in the separated form. *)
Definition pairing_product (proof : Proof) (X1 : Point2D FQ)
             (vk : VerificationKey) : GT :=
    GT_mul (GT_mul (GT_mul (e (neg (A1 proof)) (B2 proof))
                           (e (alpha1 vk) (beta2 vk)))
                   (e X1 (gamma2 vk)))
           (e (C1 proof) (delta2 vk)).

  (** Modelled from the spec: the membership validation section 4.2 asks
      for before any pairing is taken. *)
Definition validate (proof : Proof) (X1 : Point2D FQ)
             (vk : VerificationKey) : result bool :=
    (a <- in_G1 (A1 proof) ;; c <- in_G1 (C1 proof) ;;
     al <- in_G1 (alpha1 vk) ;; x <- in_G1 X1 ;;
     b <- in_G2 (B2 proof) ;; be <- in_G2 (beta2 vk) ;;
     g <- in_G2 (gamma2 vk) ;; d <- in_G2 (delta2 vk) ;;
     Ok (a && c && al && x && b && be && g && d))%py.

  (** Modelled from the spec: [check] of section 4.2. *)
Definition check (proof : Proof) (X1 : Point2D FQ)
             (vk : VerificationKey) : result bool :=
    (valid <- validate proof X1 vk ;;
     if valid then Ok (GT_eqb (pairing_product proof X1 vk) GT_one)
     else Ok false)%py.

  (** Modelled from the spec: [verify] of section 4.3. *)
Definition verify (proof : Proof) (publicInputs : list PublicInput)
             (vk : VerificationKey) : result bool :=
    (X1 <- fold publicInputs ;; check proof X1 vk)%py.

  (** The sets of points the pairing is used on. *)
Variable M1 : Point2D FQ -> Prop.
Variable M2 : Point2D FQ2 -> Prop.

(** Modelled from the spec: the contract of the pairing primitive
    (section 6 and the glossary).  [M1] and [M2] hold well-formed points
    of the two prime-order subgroups, the point at infinity among them.
    On these the pairing is bilinear for the library's [add] and sends the
    point at infinity to the identity of the target group, which has an
    identity-equality check. *)
Record bilinear : Prop := {
  M1_valid : forall P, M1 P -> Point_reduced P /\ in_G1 P = Ok true;
  M2_valid : forall Q, M2 Q ->
    Point2_reduced Q /\ FQ2_shaped Q /\ in_G2 Q = Ok true;
  M1_inf : M1 None;
  M2_inf : M2 None;
  GT_eqb_refl : forall x, GT_eqb x x = true;
  GT_one_l : forall x, GT_mul GT_one x = x;
  e_inf_l : forall Q, M2 Q -> e None Q = GT_one;
  e_inf_r : forall P, M1 P -> e P None = GT_one;
  e_add_l : forall P P' R Q,
    M1 P -> M1 P' -> M1 R -> M2 Q ->
    add P P' = Ok R -> e R Q = GT_mul (e P Q) (e P' Q);
  e_add_r : forall P Q Q' R,
    M1 P -> M2 Q -> M2 Q' -> M2 R ->
    add Q Q' = Ok R -> e P R = GT_mul (e P Q) (e P Q')
}.
End Pairing.

(** The proof, the key and the public inputs that [constants.py] derives. *)
Definition fixture_proof : result Proof :=
  (a <- constants.A1 ;; b <- constants.B2 ;; c <- constants.C1 ;;
   Ok (mkProof a b c))%py.

Definition fixture_vk : result VerificationKey :=
  (a <- constants.a1 ;; b <- constants.b2 ;; g <- constants.g2 ;;
   d <- constants.D2 ;; Ok (mkVerificationKey a b g d))%py.

Definition fixture_inputs : list PublicInput :=
  [Scalar constants._x1; Scalar constants._x2; NegativeSign constants._x3].

End Verifier.

Import field_elements bn128_curve.
Local Open Scope bigZ_scope.

(** ** Reference values and notions used in the statements *)

(** The multiples 2, 3 and 4 of the generator of G1. *)
Definition P2 : Point2D FQ :=
  Some (FQ_of 1368015179489954701390400359078579693043519447331113978918064868415326638035,
        FQ_of 9918110051302171585080402603319702774565515993150576347155970296011118125764).
Definition P3 : Point2D FQ :=
  Some (FQ_of 3353031288059533942658390886683067124040920775575537747144343083137631628272,
        FQ_of 19321533766552368860946552437480515441416830039777911637913418824951667761761).
Definition P4 : Point2D FQ :=
  Some (FQ_of 3010198690406615200373504922352659861758983907867017329644089018310584441462,
        FQ_of 4027184618003122424972590350825261965929648733675738730716654005365300998076).

(** The docstring's [X_1 = x1*G1 + x2*G1 + x3*G1], for a given third term. *)
Definition X_1_with (x3_term : result (Point2D FQ)) : result (Point2D FQ) :=
  (p1 <- constants.x1_G1 ;; p2 <- constants.x2_G1 ;; p3 <- x3_term ;;
   s <- add p1 p2 ;; add s p3)%py.

Definition X_1 : result (Point2D FQ) := X_1_with constants.x3_G1.

(** The two forms of the input -4 give different points. *)
Definition forms_diverge : Prop :=
  forall p q : Point2D FQ,
    constants.x3_G1 = Ok p ->
    multiply G1 constants.x3_printed = Ok q ->
    eq p q = false.

(** In FQ2 the unit is [FQ2([1, 0])] and the adjoined root is
    [FQ2([0, 1])]; [complex re im] is [re + im * u]. *)
Definition FQ2_one : FQ2 := FQ2_of [1; 0].
Definition FQ2_u : FQ2 := FQ2_of [0; 1].
Definition complex (re im : int) : FQ2 :=
  f_add (f_rmul re FQ2_one) (f_rmul im FQ2_u).

(** The coordinates of the generator of G2 and of its negation. *)
Definition G2_x_re : int :=
  10857046999023057135944570762232829481370756359578518086990519993285655852781.
Definition G2_x_im : int :=
  11559732032986387107991004021392285783925812861821192530917403151452391805634.
Definition G2_y_re : int :=
  8495653923123431417604973247489272438418190587263600148770280649306958101930.
Definition G2_y_im : int :=
  4082367875863433681332203403145435568316851327593401208105741076214120093531.
Definition neg_G2_y_re : int :=
  13392588948715843804641432497768002650278120570034223513918757245338268106653.
Definition neg_G2_y_im : int :=
  17805874995975841540914202342111839520379459829704422454583296818431106115052.

(** A G2 point printed real part first, and imaginary part first. *)
Definition real_first (x_re x_im y_re y_im : int) : string :=
  ("((" ++ repr x_re ++ ", " ++ repr x_im ++ "), ("
        ++ repr y_re ++ ", " ++ repr y_im ++ "))")%string.
Definition imaginary_first (x_re x_im y_re y_im : int) : string :=
  real_first x_im x_re y_im y_re.

(** A point that lies on its curve and is killed by the group order. *)
Definition G1_member (P : result (Point2D FQ)) : Prop :=
  exists p, P = Ok p /\ is_on_curve p b = true /\ multiply p curve_order = Ok None.
Definition G2_member (Q : result (Point2D FQ2)) : Prop :=
  exists q coeff, Q = Ok q /\ b2 = Ok coeff /\
    is_on_curve q coeff = true /\ multiply q curve_order = Ok None.

(** ** A pairing on the points of the fixture

    The cube roots of unity, and the pairing that sends (G1, G2) to a
    primitive one: it reads a point of the fixture as 1, -1 or 0 times
    the generator and multiplies the two readings in the exponent. *)
Inductive mu3 : Type := w0 | w1 | w2.

Definition mu3_mul (a c : mu3) : mu3 :=
  match a, c with
  | w0, x => x
  | x, w0 => x
  | w1, w1 => w2
  | w1, w2 => w0
  | w2, w1 => w0
  | w2, w2 => w1
  end.

Definition mu3_eqb (a c : mu3) : bool :=
  match a, c with
  | w0, w0 => true
  | w1, w1 => true
  | w2, w2 => true
  | _, _ => false
  end.

Definition reading1 (P : Point2D FQ) : Z :=
  if eq P G1 then 1%Z else if eq P (neg G1) then (-1)%Z else 0%Z.

Definition reading2 (Q : Point2D FQ2) : Z :=
  if eq Q G2 then 1%Z else if eq Q (neg G2) then (-1)%Z else 0%Z.

Definition sign_pairing (P : Point2D FQ) (Q : Point2D FQ2) : mu3 :=
  match (reading1 P * reading2 Q)%Z with
  | 1%Z => w1
  | (-1)%Z => w2
  | _ => w0
  end.

Definition fixture_M1 (P : Point2D FQ) : Prop :=
  P = None \/ P = G1 \/ P = neg G1.

Definition fixture_M2 (Q : Point2D FQ2) : Prop :=
  Q = None \/ Q = G2 \/ Q = neg G2.

(** * Properties *)

Ltac by_evaluation := vm_compute; reflexivity.

(** ** The result monad and the group operations *)

Lemma bind_Ok {A B} (a : A) (k : A -> result B) : bind (Ok a) k = k a.
Proof. reflexivity. Qed.

Lemma bind_inv {A B} (r : result A) (k : A -> result B) (v : B) :
  bind r k = Ok v -> exists a, r = Ok a /\ k a = Ok v.
Proof.
  destruct r as [a | err]; cbn [bind]; intros Hk.
  - exists a. split; [reflexivity | exact Hk].
  - discriminate Hk.
Qed.

Section CurveFacts.
Context {F : Type} `{Field F}.

  (** [multiply(pt, 1)] returns [pt] itself. *)
Lemma multiply_1 (pt : Point2D F) : multiply pt 1 = Ok pt.
Proof. reflexivity. Qed.

Lemma multiply_0 (pt : Point2D F) : multiply pt 0 = Ok None.
Proof. reflexivity. Qed.

Lemma add_inf_l (p : Point2D F) : add None p = Ok p.
Proof. reflexivity. Qed.

Lemma add_inf_r (p : Point2D F) : add p None = Ok p.
Proof. destruct p as [[x y] |]; reflexivity. Qed.

Lemma neg_inf : neg (None : Point2D F) = None.
Proof. reflexivity. Qed.

Lemma double_inf : double (None : Point2D F) = Ok None.
Proof. reflexivity. Qed.

  (** Multiples of the point at infinity stay there. *)
Lemma multiply_pos_inf (k : positive) :
    multiply_pos (None : Point2D F) k = Ok None.
Proof.
    induction k as [k IH | k IH |]; cbn [multiply_pos].
    - rewrite double_inf, bind_Ok, IH, bind_Ok. apply add_inf_l.
    - rewrite double_inf, bind_Ok. exact IH.
    - reflexivity.
Qed.
End CurveFacts.

(** [fold([])] is the identity and [fold([s])] is [scalar_mult(G1, s)]. *)
Lemma fold_nil : Verifier.fold [] = Ok None.
Proof. reflexivity. Qed.

Lemma fold_singleton (x : Verifier.PublicInput) :
  Verifier.fold [x] = Verifier.contribution x.
Proof.
  unfold Verifier.fold; cbn [foldM].
  destruct (Verifier.contribution x) as [c | err]; reflexivity.
Qed.

(** ** The values [constants.py] computes *)

Lemma A1_value : constants.A1 = Ok G1.
Proof. apply multiply_1. Qed.

Lemma C1_value : constants.C1 = Ok G1.
Proof. apply multiply_1. Qed.

Lemma a1_value : constants.a1 = Ok G1.
Proof. apply multiply_1. Qed.

Lemma B2_value : constants.B2 = Ok G2.
Proof. apply multiply_1. Qed.

Lemma b2_value : constants.b2 = Ok G2.
Proof. apply multiply_1. Qed.

Lemma g2_value : constants.g2 = Ok G2.
Proof. apply multiply_1. Qed.

Lemma D2_value : constants.D2 = Ok (neg G2).
Proof. unfold constants.D2, constants._D2. rewrite multiply_1. reflexivity. Qed.

Lemma x1_G1_value : constants.x1_G1 = Ok P2.
Proof. by_evaluation. Qed.

Lemma x2_G1_value : constants.x2_G1 = Ok P3.
Proof. by_evaluation. Qed.

Lemma multiply_G1_4 : multiply G1 4 = Ok P4.
Proof. by_evaluation. Qed.

Lemma x3_G1_value : constants.x3_G1 = Ok (neg P4).
Proof.
  unfold constants.x3_G1, constants._x3. rewrite multiply_G1_4. reflexivity.
Qed.

(** The scalar multiple by [curve_order - 4], along the 254 binary digits
    of the scalar. *)
Lemma multiply_G1_complement : multiply G1 (curve_order - 4) = Ok (neg P4).
Proof. by_evaluation. Qed.

(** ** Subgroup membership of the points in play *)

Lemma G1_in_G1 : in_G1 G1 = Ok true.
Proof. by_evaluation. Qed.

Lemma neg_G1_in_G1 : in_G1 (neg G1) = Ok true.
Proof. by_evaluation. Qed.

Lemma P2_in_G1 : in_G1 P2 = Ok true.
Proof. by_evaluation. Qed.

Lemma P3_in_G1 : in_G1 P3 = Ok true.
Proof. by_evaluation. Qed.

Lemma neg_P4_in_G1 : in_G1 (neg P4) = Ok true.
Proof. by_evaluation. Qed.

Lemma G2_in_G2 : in_G2 G2 = Ok true.
Proof. by_evaluation. Qed.

Lemma neg_G2_in_G2 : in_G2 (neg G2) = Ok true.
Proof. by_evaluation. Qed.

Lemma neg_G1_plus_G1 : add (neg G1) G1 = Ok None.
Proof. by_evaluation. Qed.

Lemma G2_plus_neg_G2 : add G2 (neg G2) = Ok None.
Proof. by_evaluation. Qed.

Lemma in_subgroup_spec {F : Type} `{Field F} (pt : Point2D F) (coeff : F) :
  in_subgroup pt coeff = Ok true <->
  is_on_curve pt coeff = true /\ multiply pt curve_order = Ok None.
Proof.
  unfold in_subgroup. split.
  - intros Hin. apply bind_inv in Hin. destruct Hin as [r [Hr Hok]].
    injection Hok as Hok. apply andb_true_iff in Hok. destruct Hok as [Hc Hi].
    split; [exact Hc |]. destruct r; [discriminate Hi | exact Hr].
  - intros [Hc Hr]. rewrite Hr, bind_Ok, Hc. reflexivity.
Qed.

Lemma G1_member_intro (P : result (Point2D FQ)) (p : Point2D FQ) :
  P = Ok p -> in_G1 p = Ok true -> G1_member P.
Proof.
  intros HP Hin. apply in_subgroup_spec in Hin. exists p. tauto.
Qed.

Lemma twist_b2_value :
  bn128_curve.b2 =
  Ok (FQ2_of [19485874751759354771024239261021720505790618469301721065564631296452457478373;
              266929791119991161246907387137283842545076965332900288569378510910307636690]).
Proof. by_evaluation. Qed.

Lemma in_G2_spec (q : Point2D FQ2) :
  in_G2 q = Ok true <->
  exists coeff, bn128_curve.b2 = Ok coeff /\
    is_on_curve q coeff = true /\ multiply q curve_order = Ok None.
Proof.
  unfold in_G2. split.
  - intros Hin. apply bind_inv in Hin. destruct Hin as [coeff [Hb Hin]].
    exists coeff. split; [exact Hb |]. apply in_subgroup_spec. exact Hin.
  - intros [coeff [Hb Hin]]. rewrite Hb, bind_Ok.
    apply in_subgroup_spec. exact Hin.
Qed.

Lemma G2_member_intro (Q : result (Point2D FQ2)) (q : Point2D FQ2) :
  Q = Ok q -> in_G2 q = Ok true -> G2_member Q.
Proof.
  intros HQ Hin. apply in_G2_spec in Hin. destruct Hin as [coeff [Hb Hin]].
  exists q, coeff. split; [exact HQ |]. split; [exact Hb | exact Hin].
Qed.

(** ** The claims *)

(** C9: the proof points of the fixture coincide with the key points built
    from the same unit seeds: A1 = C1 = a1 = 1*G1 = G1 and
    B2 = b2 = g2 = 1*G2 = G2. *)
Theorem fixture_proof_points_are_key_points :
  constants.A1 = constants.a1 /\ constants.C1 = constants.a1 /\
  constants.a1 = multiply G1 1 /\ multiply G1 1 = Ok G1 /\
  constants.B2 = constants.b2 /\ constants.g2 = constants.b2 /\
  constants.b2 = multiply G2 1 /\ multiply G2 1 = Ok G2.
Proof. repeat split. Qed.

(** C3: the key has four points, each the seed multiple of its generator
    (a1 = 1*G1, b2 = 1*G2, g2 = 1*G2), and D2 alone is negated:
    D2 = neg(1*G2), which differs from 1*G2, while a1, b2 and g2 are the
    generators and not their negations. *)
Theorem verification_key_construction :
  Verifier.fixture_vk = Ok (Verifier.mkVerificationKey G1 G2 G2 (neg G2)) /\
  constants.a1 = multiply G1 constants._a1 /\
  constants.b2 = multiply G2 constants._b2 /\
  constants.g2 = multiply G2 constants._g2 /\
  constants.D2 = bind (multiply G2 constants._D2) (fun p => Ok (neg p)) /\
  constants._a1 = 1 /\ constants._b2 = 1 /\ constants._g2 = 1 /\
  constants._D2 = 1 /\
  eq (neg G2) G2 = false /\ eq G1 (neg G1) = false.
Proof.
  split.
  - unfold Verifier.fixture_vk.
    rewrite a1_value, b2_value, g2_value, D2_value. reflexivity.
  - repeat split; by_evaluation.
Qed.

(** C4: the public-input fold of the scenario inputs 2, 3 and -4 (the last
    as the negated point) is the generator:
    2*G1 + 3*G1 + neg(4*G1) = 1*G1 = G1. *)
Theorem public_input_fold_is_generator :
  X_1 = multiply G1 1 /\ X_1 = Ok G1 /\
  constants.x1_G1 = multiply G1 2 /\ constants.x2_G1 = multiply G1 3 /\
  constants.x3_G1 = bind (multiply G1 4) (fun p => Ok (neg p)).
Proof.
  assert (HX : X_1 = Ok G1).
  { unfold X_1, X_1_with.
    rewrite x1_G1_value, x2_G1_value, x3_G1_value. by_evaluation. }
  rewrite HX, multiply_1. repeat split.
Qed.

(** C7: every scalar the script uses or prints lies in [0, curve_order):
    the seeds 1, the inputs 2, 3, 4 and the printed curve_order - 4. *)
Theorem constants_scalars_reduced :
  Forall (fun s : int => 0 <= s < curve_order)
    [constants._A1; constants._B2; constants._C1;
     constants._a1; constants._b2; constants._g2; constants._D2;
     constants._x1; constants._x2; constants._x3;
     constants.x3_printed].
Proof.
  repeat constructor; vm_compute; (reflexivity || discriminate).
Qed.

(** C8: in G1 the negated multiple is the multiple by the order
    complement: neg(4*G1) = (curve_order - 4)*G1, so the reference point
    x3_G1 and the printed scalar curve_order - 4 denote the same point. *)
Theorem negated_point_is_complement_multiple :
  constants.x3_G1 = multiply G1 constants.x3_printed /\
  constants.x3_printed = curve_order - constants._x3 /\
  constants.x3_G1 = Ok (neg P4) /\
  eq (neg P4) (neg P4) = true.
Proof.
  split; [| split; [| split]].
  - rewrite x3_G1_value. symmetry. exact multiply_G1_complement.
  - reflexivity.
  - exact x3_G1_value.
  - by_evaluation.
Qed.

(** C2, as claimed, fails: the point the script computes by negation and
    the multiple by the printed scalar are the same point. *)
Lemma negated_and_raw_forms_coincide : ~ forms_diverge.
Proof.
  intros Hdiv.
  specialize (Hdiv (neg P4) (neg P4) x3_G1_value multiply_G1_complement).
  vm_compute in Hdiv. discriminate Hdiv.
Qed.

(** C2, amended: for the input -4, folding the negated point
    neg(4*G1) and folding curve_order - 4 as a raw positive scalar give
    the same point, and both folds of (2, 3, -4) are G1; only the scalars
    4 and curve_order - 4 differ. *)
Theorem negative_input_forms_agree :
  X_1_with constants.x3_G1 = X_1_with (multiply G1 constants.x3_printed) /\
  X_1_with (multiply G1 constants.x3_printed) = Ok G1 /\
  (constants._x3 =? constants.x3_printed) = false.
Proof.
  assert (Hsame : multiply G1 constants.x3_printed = constants.x3_G1).
  { rewrite x3_G1_value. exact multiply_G1_complement. }
  rewrite Hsame. split; [reflexivity |]. split; [| by_evaluation].
  unfold X_1_with.
  rewrite x1_G1_value, x2_G1_value, x3_G1_value. by_evaluation.
Qed.

(** C6: every point the script builds lies on its curve and is killed by
    the group order: A1, C1, a1, x1_G1, x2_G1, x3_G1 in G1 and
    B2, b2, g2, D2 in G2. *)
Theorem constants_points_in_subgroup :
  Forall G1_member
    [constants.A1; constants.C1; constants.a1;
     constants.x1_G1; constants.x2_G1; constants.x3_G1] /\
  Forall G2_member
    [constants.B2; constants.b2; constants.g2; constants.D2].
Proof.
  split; repeat apply Forall_cons; try apply Forall_nil.
  - exact (G1_member_intro _ _ A1_value G1_in_G1).
  - exact (G1_member_intro _ _ C1_value G1_in_G1).
  - exact (G1_member_intro _ _ a1_value G1_in_G1).
  - exact (G1_member_intro _ _ x1_G1_value P2_in_G1).
  - exact (G1_member_intro _ _ x2_G1_value P3_in_G1).
  - exact (G1_member_intro _ _ x3_G1_value neg_P4_in_G1).
  - exact (G2_member_intro _ _ B2_value G2_in_G2).
  - exact (G2_member_intro _ _ b2_value G2_in_G2).
  - exact (G2_member_intro _ _ g2_value G2_in_G2).
  - exact (G2_member_intro _ _ D2_value neg_G2_in_G2).
Qed.

Lemma fixture_proof_value :
  Verifier.fixture_proof = Ok (Verifier.mkProof G1 G2 G1).
Proof.
  unfold Verifier.fixture_proof.
  rewrite A1_value, B2_value, C1_value. reflexivity.
Qed.

Lemma fixture_vk_value :
  Verifier.fixture_vk = Ok (Verifier.mkVerificationKey G1 G2 G2 (neg G2)).
Proof.
  unfold Verifier.fixture_vk.
  rewrite a1_value, b2_value, g2_value, D2_value. reflexivity.
Qed.

Lemma fold_fixture : Verifier.fold Verifier.fixture_inputs = Ok G1.
Proof. by_evaluation. Qed.

Lemma stdout_value :
  constants.stdout =
  Ok [ "ALPHA1 (a1): (1, 2)";
       "BETA2 (b2): " ++ real_first G2_x_re G2_x_im G2_y_re G2_y_im;
       "GAMMA2 (g2): " ++ real_first G2_x_re G2_x_im G2_y_re G2_y_im;
       "DELTA2 (D2): " ++ real_first G2_x_re G2_x_im neg_G2_y_re neg_G2_y_im;
       String (Ascii.ascii_of_nat 10) "Function Inputs:";
       "A1: (1, 2)";
       "B2: " ++ real_first G2_x_re G2_x_im G2_y_re G2_y_im;
       "C1: (1, 2)";
       "x1: 2";
       "x2: 3";
       "x3 (as positive mod order): 21888242871839275222246405745257275088548364400416034343698204186575808495613"
     ]%string.
Proof. by_evaluation. Qed.

(** C1: with the fixture the script builds, (A1, B2, C1) = (G1, G2, G1),
    the key (G1, G2, G2, neg G2) and X1 the fold of (2, 3, -4), which is
    G1, and a pairing that is bilinear on sets of subgroup points holding
    G1, neg G1, G2 and neg G2, the product
    e(-A1, B2) * e(alpha1, beta2) * e(X1, gamma2) * e(C1, delta2) is the
    identity of GT and verify returns true. *)
Theorem fixture_verifies
  (GT : Type) (GT_mul : GT -> GT -> GT) (GT_one : GT)
  (GT_eqb : GT -> GT -> bool) (e : Point2D FQ -> Point2D FQ2 -> GT)
  (M1 : Point2D FQ -> Prop) (M2 : Point2D FQ2 -> Prop)
  (He : Verifier.bilinear GT GT_mul GT_one GT_eqb e M1 M2)
  (HM1 : M1 G1 /\ M1 (neg G1)) (HM2 : M2 G2 /\ M2 (neg G2)) :
  Verifier.fixture_proof = Ok (Verifier.mkProof G1 G2 G1) /\
  Verifier.fixture_vk = Ok (Verifier.mkVerificationKey G1 G2 G2 (neg G2)) /\
  Verifier.fold Verifier.fixture_inputs = Ok G1 /\
  GT_mul (GT_mul (GT_mul (e (neg G1) G2) (e G1 G2)) (e G1 G2)) (e G1 (neg G2))
  = GT_one /\
  Verifier.pairing_product GT GT_mul e (Verifier.mkProof G1 G2 G1) G1
    (Verifier.mkVerificationKey G1 G2 G2 (neg G2)) = GT_one /\
  bind Verifier.fixture_proof (fun proof =>
    bind Verifier.fixture_vk (fun vk =>
      Verifier.verify GT GT_mul GT_one GT_eqb e proof
        Verifier.fixture_inputs vk)) = Ok true.
Proof.
  destruct HM1 as [HG1 HnG1]. destruct HM2 as [HG2 HnG2].
  pose proof (Verifier.M1_inf _ _ _ _ _ _ _ He) as H1inf.
  pose proof (Verifier.M2_inf _ _ _ _ _ _ _ He) as H2inf.
  assert (Hprod :
    GT_mul (GT_mul (GT_mul (e (neg G1) G2) (e G1 G2)) (e G1 G2))
           (e G1 (neg G2)) = GT_one).
  { rewrite <- (Verifier.e_add_l _ _ _ _ _ _ _ He (neg G1) G1 None G2
                  HnG1 HG1 H1inf HG2 neg_G1_plus_G1).
    rewrite (Verifier.e_inf_l _ _ _ _ _ _ _ He G2 HG2).
    rewrite (Verifier.GT_one_l _ _ _ _ _ _ _ He).
    rewrite <- (Verifier.e_add_r _ _ _ _ _ _ _ He G1 G2 (neg G2) None
                  HG1 HG2 HnG2 H2inf G2_plus_neg_G2).
    apply (Verifier.e_inf_r _ _ _ _ _ _ _ He G1 HG1). }
  split; [exact fixture_proof_value |].
  split; [exact fixture_vk_value |].
  split; [exact fold_fixture |].
  split; [exact Hprod |].
  split; [exact Hprod |].
  rewrite fixture_proof_value, bind_Ok, fixture_vk_value, bind_Ok.
  unfold Verifier.verify. rewrite fold_fixture, bind_Ok.
  unfold Verifier.check, Verifier.pairing_product.
  cbn [Verifier.A1 Verifier.B2 Verifier.C1 Verifier.alpha1 Verifier.beta2
       Verifier.gamma2 Verifier.delta2].
  rewrite Hprod.
  unfold Verifier.validate.
  cbn [Verifier.A1 Verifier.B2 Verifier.C1 Verifier.alpha1 Verifier.beta2
       Verifier.gamma2 Verifier.delta2].
  rewrite G1_in_G1, G2_in_G2, neg_G2_in_G2, !bind_Ok.
  cbn [andb]. rewrite (Verifier.GT_eqb_refl _ _ _ _ _ _ _ He). reflexivity.
Qed.

(** The sign pairing meets the contract on the points of the fixture. *)
Ltac wf_leaf :=
  vm_compute;
  first [ reflexivity | discriminate
        | let H := fresh in intro H; discriminate H ].

Ltac wf_point :=
  cbv [Point_reduced Point2_reduced FQ2_shaped FQP_reduced FQ_reduced neg
       G1 G2 FQ2_of FQP_of f_neg FQ_Field FQ2_Field FQP_neg coeffs map length];
  repeat match goal with
         | |- _ /\ _ => split
         | |- Forall _ (_ :: _) => apply Forall_cons
         | |- Forall _ [] => apply Forall_nil
         | |- True => exact I
         end;
  wf_leaf.

Ltac refute_sum H :=
  match type of H with
  | _ = Ok ?R =>
      apply (f_equal (fun r => match r with
                               | Ok p => eq p R
                               | Raise _ => false
                               end)) in H;
      vm_compute in H; discriminate H
  end.

Lemma sign_pairing_bilinear :
  Verifier.bilinear mu3 mu3_mul w0 mu3_eqb sign_pairing fixture_M1 fixture_M2.
Proof.
  constructor.
  - intros P [-> | [-> | ->]].
    + split; [exact I | wf_leaf].
    + split; [wf_point | exact G1_in_G1].
    + split; [wf_point | exact neg_G1_in_G1].
  - intros Q [-> | [-> | ->]].
    + split; [exact I | split; [exact I | wf_leaf]].
    + split; [wf_point | split; [wf_point | exact G2_in_G2]].
    + split; [wf_point | split; [wf_point | exact neg_G2_in_G2]].
  - left. reflexivity.
  - left. reflexivity.
  - intros [| |]; reflexivity.
  - intros x. reflexivity.
  - intros Q _. reflexivity.
  - intros P [-> | [-> | ->]]; vm_compute; reflexivity.
  - intros P P' R Q [-> | [-> | ->]] [-> | [-> | ->]] [-> | [-> | ->]]
           [-> | [-> | ->]] Hsum;
      first [vm_compute; reflexivity | refute_sum Hsum].
  - intros P Q Q' R [-> | [-> | ->]] [-> | [-> | ->]] [-> | [-> | ->]]
           [-> | [-> | ->]] Hsum;
      first [vm_compute; reflexivity | refute_sum Hsum].
Qed.

(** The contract of C1 is met by the sign pairing, which is not
    degenerate: e(G1, G2) is a primitive cube root of unity, and with A1
    left un-negated the product is not the identity. *)
Lemma fixture_verifies_witness :
  (Verifier.fixture_proof = Ok (Verifier.mkProof G1 G2 G1) /\
   Verifier.fixture_vk = Ok (Verifier.mkVerificationKey G1 G2 G2 (neg G2)) /\
   Verifier.fold Verifier.fixture_inputs = Ok G1 /\
   mu3_mul (mu3_mul (mu3_mul (sign_pairing (neg G1) G2) (sign_pairing G1 G2))
                    (sign_pairing G1 G2))
           (sign_pairing G1 (neg G2)) = w0 /\
   Verifier.pairing_product mu3 mu3_mul sign_pairing
     (Verifier.mkProof G1 G2 G1) G1
     (Verifier.mkVerificationKey G1 G2 G2 (neg G2)) = w0 /\
   bind Verifier.fixture_proof (fun proof =>
     bind Verifier.fixture_vk (fun vk =>
       Verifier.verify mu3 mu3_mul w0 mu3_eqb sign_pairing proof
         Verifier.fixture_inputs vk)) = Ok true) /\
  sign_pairing G1 G2 = w1 /\
  mu3_mul (mu3_mul (mu3_mul (sign_pairing G1 G2) (sign_pairing G1 G2))
                   (sign_pairing G1 G2))
          (sign_pairing G1 (neg G2)) = w2.
Proof.
  split; [| split; vm_compute; reflexivity].
  apply (fixture_verifies mu3 mu3_mul w0 mu3_eqb sign_pairing
           fixture_M1 fixture_M2 sign_pairing_bilinear).
  - split; [right; left; reflexivity | right; right; reflexivity].
  - split; [right; left; reflexivity | right; right; reflexivity].
Defined.

(** C5, on the code: the script prints every G2 coordinate real part
    first.  [FQ2_u] squares to -1, the coordinates of G2 and of its
    negation are [re + im * u] for the numbers below (and not
    [im + re * u]), and the lines for b2, g2, D2 and B2 list [re] before
    [im]; none of them is the imaginary-first rendering. *)
Theorem printed_G2_coordinates_are_real_first :
  f_mul FQ2_u FQ2_u = f_neg FQ2_one /\
  eq G2 (Some (complex G2_x_re G2_x_im, complex G2_y_re G2_y_im)) = true /\
  eq (neg G2)
     (Some (complex G2_x_re G2_x_im, complex neg_G2_y_re neg_G2_y_im)) = true /\
  eq G2 (Some (complex G2_x_im G2_x_re, complex G2_y_im G2_y_re)) = false /\
  exists out, constants.stdout = Ok out /\
    (nth 1 out "" = "BETA2 (b2): " ++ real_first G2_x_re G2_x_im G2_y_re G2_y_im /\
     nth 2 out "" = "GAMMA2 (g2): " ++ real_first G2_x_re G2_x_im G2_y_re G2_y_im /\
     nth 3 out "" = "DELTA2 (D2): " ++ real_first G2_x_re G2_x_im neg_G2_y_re neg_G2_y_im /\
     nth 6 out "" = "B2: " ++ real_first G2_x_re G2_x_im G2_y_re G2_y_im /\
     String.eqb (nth 1 out "")
       ("BETA2 (b2): " ++ imaginary_first G2_x_re G2_x_im G2_y_re G2_y_im) = false /\
     String.eqb (nth 2 out "")
       ("GAMMA2 (g2): " ++ imaginary_first G2_x_re G2_x_im G2_y_re G2_y_im) = false /\
     String.eqb (nth 3 out "")
       ("DELTA2 (D2): " ++ imaginary_first G2_x_re G2_x_im neg_G2_y_re neg_G2_y_im) = false /\
     String.eqb (nth 6 out "")
       ("B2: " ++ imaginary_first G2_x_re G2_x_im G2_y_re G2_y_im) = false)%string.
Proof.
  split; [by_evaluation |]. split; [by_evaluation |].
  split; [by_evaluation |]. split; [by_evaluation |].
  eexists. split; [exact stdout_value |].
  repeat split; by_evaluation.
Qed.

(** C10: moccasin_main returns what deploy returns: both make one
    Verifier.deploy call, with no arguments, hand back the contract it
    gives, and leave the environment as that call left it. *)
Theorem moccasin_main_is_deploy
  (VyperContract Arg Env : Type)
  (boa_deploy : list Arg -> Env -> VyperContract * Env)
  (env : Env) (log : list (list Arg)) :
  @deploy.moccasin_main VyperContract Arg = deploy.deploy /\
  deploy.run boa_deploy deploy.moccasin_main env log
  = deploy.run boa_deploy deploy.deploy env log /\
  deploy.run boa_deploy deploy.deploy env log
  = (fst (boa_deploy [] env), snd (boa_deploy [] env), log ++ [[]]).
Proof.
  split; [reflexivity |]. split; [reflexivity |].
  cbn [deploy.run deploy.deploy].
  destruct (boa_deploy [] env) as [verifier env']. reflexivity.
Qed.

(** * Further properties of the code the script runs *)

(** ** Field inversion: the extended Euclid loop *)

Lemma prime_field_inv_loop_O (lm hm low high : int) :
  utils.prime_field_inv_loop O lm hm low high
  = if negb (1 <? low) then Ok lm else Raise OutOfFuel.
Proof. reflexivity. Qed.

Lemma prime_field_inv_loop_S (fuel : nat) (lm hm low high : int) :
  utils.prime_field_inv_loop (S fuel) lm hm low high
  = if negb (1 <? low) then Ok lm
    else utils.prime_field_inv_loop fuel
           (hm - lm * (high / low)) lm (high - low * (high / low)) low.
Proof. reflexivity. Qed.

(** A remainder is less than half of the dividend it was taken from. *)
Lemma remainder_log2 (low high : Z) :
  (1 < low < high)%Z -> (1 < high mod low)%Z ->
  (Z.log2 (high mod low) + 1 <= Z.log2 high)%Z.
Proof.
  intros Hlh Hr.
  pose proof (Z.mod_pos_bound high low ltac:(lia)) as Hb.
  pose proof (Z.div_mod high low ltac:(lia)) as Hd.
  assert (Hq : (1 <= high / low)%Z) by (apply Z.div_le_lower_bound; lia).
  assert (H2 : (2 * (high mod low) <= high)%Z) by nia.
  replace (Z.log2 (high mod low) + 1)%Z with (Z.log2 (2 * (high mod low))).
  - apply Z.log2_le_mono. exact H2.
  - rewrite Z.log2_double by lia. lia.
Qed.

(** With fuel for the two logarithms the loop returns; what it returns is
    a Bezout coefficient of the gcd it reaches. *)
Lemma prime_field_inv_loop_spec (a n : Z) :
  forall (fuel : nat) (lm hm low high : int),
    (0 <= BigZ.to_Z low < BigZ.to_Z high)%Z ->
    (1 < BigZ.to_Z low -> Z.log2 (BigZ.to_Z low) + Z.log2 (BigZ.to_Z high) <= Z.of_nat fuel)%Z ->
    ((BigZ.to_Z lm * a) mod n = BigZ.to_Z low mod n)%Z ->
    ((BigZ.to_Z hm * a) mod n = BigZ.to_Z high mod n)%Z ->
    exists lm' : int,
      utils.prime_field_inv_loop fuel lm hm low high = Ok lm' /\
      (Z.gcd (BigZ.to_Z low) (BigZ.to_Z high) = 1%Z -> (1 < BigZ.to_Z high)%Z ->
       ((BigZ.to_Z lm' * a) mod n = 1 mod n)%Z).
Proof.
  induction fuel as [| fuel IH]; intros lm hm low high Hrange Hfuel Hlm Hhm.
  - rewrite prime_field_inv_loop_O, BigZ.spec_ltb. change (BigZ.to_Z 1) with 1%Z.
    destruct (Z.ltb_spec 1 (BigZ.to_Z low)) as [Hlow | Hlow]; cbn [negb].
    + pose proof (Hfuel Hlow) as Hf. cbn in Hf.
      assert (1 <= Z.log2 (BigZ.to_Z low))%Z by (apply Z.log2_le_pow2; cbn; lia).
      assert (1 <= Z.log2 (BigZ.to_Z high))%Z by (apply Z.log2_le_pow2; cbn; lia).
      lia.
    + exists lm. split; [reflexivity |]. intros Hg Hhigh.
      assert (Hone : BigZ.to_Z low = 1%Z).
      { destruct (Z.eq_dec (BigZ.to_Z low) 0) as [H0 | H0]; [| lia].
        rewrite H0, Z.gcd_0_l, Z.abs_eq in Hg by lia. lia. }
      rewrite Hlm, Hone. reflexivity.
  - rewrite prime_field_inv_loop_S, BigZ.spec_ltb. change (BigZ.to_Z 1) with 1%Z.
    destruct (Z.ltb_spec 1 (BigZ.to_Z low)) as [Hlow | Hlow]; cbn [negb].
    + assert (Hnew : BigZ.to_Z (high - low * (high / low)) = (BigZ.to_Z high mod BigZ.to_Z low)%Z).
      { rewrite BigZ.spec_sub, BigZ.spec_mul, BigZ.spec_div.
        rewrite Z.mod_eq by lia. reflexivity. }
      pose proof (Z.mod_pos_bound (BigZ.to_Z high) (BigZ.to_Z low) ltac:(lia)) as Hb.
      destruct (IH (hm - lm * (high / low)) lm (high - low * (high / low)) low)
        as [lm' [Hret Hinv]].
      * rewrite Hnew. lia.
      * rewrite Hnew. intros Hr.
        pose proof (remainder_log2 (BigZ.to_Z low) (BigZ.to_Z high) ltac:(lia) Hr).
        specialize (Hfuel Hlow). lia.
      * rewrite !BigZ.spec_sub, !BigZ.spec_mul, !BigZ.spec_div.
        set (q := (BigZ.to_Z high / BigZ.to_Z low)%Z).
        replace ((BigZ.to_Z hm - BigZ.to_Z lm * q) * a)%Z
          with (BigZ.to_Z hm * a - (BigZ.to_Z lm * a) * q)%Z by ring.
        rewrite Zminus_mod, (Zmult_mod (BigZ.to_Z lm * a) q), Hhm, Hlm.
        rewrite <- Zmult_mod, <- Zminus_mod. reflexivity.
      * exact Hlm.
      * exists lm'. split; [exact Hret |]. intros Hg _. apply Hinv.
        -- rewrite Hnew, Z.gcd_mod_l, Z.gcd_comm. exact Hg.
        -- exact Hlow.
    + exists lm. split; [reflexivity |]. intros Hg Hhigh.
      assert (Hone : BigZ.to_Z low = 1%Z).
      { destruct (Z.eq_dec (BigZ.to_Z low) 0) as [H0 | H0]; [| lia].
        rewrite H0, Z.gcd_0_l, Z.abs_eq in Hg by lia. lia. }
      rewrite Hlm, Hone. reflexivity.
Qed.

Lemma euclid_bound_enough (low n : int) :
  (0 <= BigZ.to_Z low < BigZ.to_Z n)%Z ->
  (Z.log2 (BigZ.to_Z low) + Z.log2 (BigZ.to_Z n) <= Z.of_nat (utils.euclid_bound n))%Z.
Proof.
  intros Hrange. unfold utils.euclid_bound.
  pose proof (Z.log2_le_mono (BigZ.to_Z low) (BigZ.to_Z n) ltac:(lia)).
  pose proof (Z.le_log2_log2_up (BigZ.to_Z n)).
  pose proof (Z.log2_nonneg (BigZ.to_Z n)).
  rewrite Z2Nat.id by lia. lia.
Qed.

Lemma prime_field_inv_returns (a n : int) :
  (0 < BigZ.to_Z n)%Z ->
  exists i : int, utils.prime_field_inv a n = Ok i /\ (0 <= BigZ.to_Z i < BigZ.to_Z n)%Z.
Proof.
  intros Hn. unfold utils.prime_field_inv. cbv zeta.
  destruct (a mod n =? 0) eqn:Ha.
  - exists 0. split; [reflexivity |]. change (BigZ.to_Z 0) with 0%Z. lia.
  - assert (Hlow : (0 <= BigZ.to_Z ((a mod n) mod n) < BigZ.to_Z n)%Z).
    { rewrite BigZ.spec_modulo. apply Z.mod_pos_bound. exact Hn. }
    destruct (prime_field_inv_loop_spec (BigZ.to_Z a) (BigZ.to_Z n)
                (utils.euclid_bound n) 1 0 ((a mod n) mod n) n) as [lm [Hret _]].
    + exact Hlow.
    + intros _. apply euclid_bound_enough. exact Hlow.
    + rewrite !BigZ.spec_modulo. change (BigZ.to_Z 1) with 1%Z.
      rewrite Z.mul_1_l, !Z.mod_mod by lia. reflexivity.
    + change (BigZ.to_Z 0) with 0%Z. rewrite Z.mul_0_l, Z.mod_same by lia.
      apply Z.mod_0_l. lia.
    + rewrite Hret, bind_Ok. exists (lm mod n). split; [reflexivity |].
      rewrite BigZ.spec_modulo. apply Z.mod_pos_bound. exact Hn.
Qed.

(** X1: [prime_field_inv] always returns for a positive modulus, with a
    result reduced into [0, n). *)
Theorem prime_field_inv_total (a n : int) :
  (0 < BigZ.to_Z n)%Z ->
  exists i : int, utils.prime_field_inv a n = Ok i /\ (0 <= BigZ.to_Z i < BigZ.to_Z n)%Z.
Proof. exact (prime_field_inv_returns a n). Qed.

Lemma prime_field_inv_total_witness :
  (0 < BigZ.to_Z field_elements.field_modulus)%Z /\
  exists i : int,
    utils.prime_field_inv 4 field_elements.field_modulus = Ok i /\
    (0 <= BigZ.to_Z i < BigZ.to_Z field_elements.field_modulus)%Z.
Proof.
  split; [reflexivity |].
  apply (prime_field_inv_total 4 field_elements.field_modulus). reflexivity.
Defined.

Lemma prime_field_inv_inverse (a n : int) :
  (1 < BigZ.to_Z n)%Z -> Z.gcd (BigZ.to_Z a) (BigZ.to_Z n) = 1%Z ->
  exists i : int,
    utils.prime_field_inv a n = Ok i /\ (0 <= BigZ.to_Z i < BigZ.to_Z n)%Z /\
    ((BigZ.to_Z a * BigZ.to_Z i) mod BigZ.to_Z n = 1)%Z.
Proof.
  intros Hn Hg. unfold utils.prime_field_inv. cbv zeta.
  destruct (a mod n =? 0) eqn:Ha.
  - rewrite BigZ.spec_eqb, BigZ.spec_modulo in Ha.
    change (BigZ.to_Z 0) with 0%Z in Ha. apply Z.eqb_eq in Ha.
    rewrite <- Z.gcd_mod_l, Ha, Z.gcd_0_l, Z.abs_eq in Hg by lia. lia.
  - assert (Hlow : (0 <= BigZ.to_Z ((a mod n) mod n) < BigZ.to_Z n)%Z).
    { rewrite BigZ.spec_modulo. apply Z.mod_pos_bound. lia. }
    destruct (prime_field_inv_loop_spec (BigZ.to_Z a) (BigZ.to_Z n)
                (utils.euclid_bound n) 1 0 ((a mod n) mod n) n) as [lm [Hret Hinv]].
    + exact Hlow.
    + intros _. apply euclid_bound_enough. exact Hlow.
    + rewrite !BigZ.spec_modulo. change (BigZ.to_Z 1) with 1%Z.
      rewrite Z.mul_1_l, !Z.mod_mod by lia. reflexivity.
    + change (BigZ.to_Z 0) with 0%Z. rewrite Z.mul_0_l, Z.mod_same by lia.
      apply Z.mod_0_l. lia.
    + rewrite Hret, bind_Ok. exists (lm mod n). split; [reflexivity |].
      rewrite BigZ.spec_modulo. split; [apply Z.mod_pos_bound; lia |].
      rewrite Zmult_mod_idemp_r, Z.mul_comm, Hinv.
      * apply Z.mod_1_l. exact Hn.
      * rewrite !BigZ.spec_modulo, !Z.gcd_mod_l. exact Hg.
      * exact Hn.
Qed.

(** X2: for a modulus above 1 and an argument coprime to it,
    [prime_field_inv] returns the inverse: a * i = 1 (mod n). *)
Theorem prime_field_inv_correct (a n : int) :
  (1 < BigZ.to_Z n)%Z -> Z.gcd (BigZ.to_Z a) (BigZ.to_Z n) = 1%Z ->
  exists i : int,
    utils.prime_field_inv a n = Ok i /\ (0 <= BigZ.to_Z i < BigZ.to_Z n)%Z /\
    ((BigZ.to_Z a * BigZ.to_Z i) mod BigZ.to_Z n = 1)%Z.
Proof. exact (prime_field_inv_inverse a n). Qed.

Lemma prime_field_inv_correct_witness :
  (1 < BigZ.to_Z field_elements.field_modulus)%Z /\
  Z.gcd (BigZ.to_Z 4) (BigZ.to_Z field_elements.field_modulus) = 1%Z /\
  exists i : int,
    utils.prime_field_inv 4 field_elements.field_modulus = Ok i /\
    (0 <= BigZ.to_Z i < BigZ.to_Z field_elements.field_modulus)%Z /\
    ((BigZ.to_Z 4 * BigZ.to_Z i) mod BigZ.to_Z field_elements.field_modulus = 1)%Z.
Proof.
  split; [reflexivity |]. split; [vm_compute; reflexivity |].
  apply (prime_field_inv_correct 4 field_elements.field_modulus).
  - reflexivity.
  - vm_compute. reflexivity.
Defined.

(** ** FQ arithmetic, seen through [BigZ.to_Z] *)


Lemma field_modulus_gt_1 : (1 < (BigZ.to_Z field_elements.field_modulus))%Z.
Proof. reflexivity. Qed.

Lemma field_modulus_odd : ((BigZ.to_Z field_elements.field_modulus) mod 2 = 1)%Z.
Proof. vm_compute. reflexivity. Qed.

Lemma n_FQ_of (v : int) : BigZ.to_Z (n (FQ_of v)) = (BigZ.to_Z v mod (BigZ.to_Z field_elements.field_modulus))%Z.
Proof. unfold FQ_of. cbn [n]. apply BigZ.spec_modulo. Qed.

Lemma n_FQ_add (a c : FQ) :
  BigZ.to_Z (n (FQ_add a c)) = ((BigZ.to_Z (n a) + BigZ.to_Z (n c)) mod (BigZ.to_Z field_elements.field_modulus))%Z.
Proof.
  unfold FQ_add. rewrite n_FQ_of, BigZ.spec_modulo, BigZ.spec_add.
  apply Z.mod_mod. pose proof field_modulus_gt_1. lia.
Qed.

Lemma n_FQ_sub (a c : FQ) :
  BigZ.to_Z (n (FQ_sub a c)) = ((BigZ.to_Z (n a) - BigZ.to_Z (n c)) mod (BigZ.to_Z field_elements.field_modulus))%Z.
Proof.
  unfold FQ_sub. rewrite n_FQ_of, BigZ.spec_modulo, BigZ.spec_sub.
  apply Z.mod_mod. pose proof field_modulus_gt_1. lia.
Qed.

Lemma n_FQ_mul (a c : FQ) :
  BigZ.to_Z (n (FQ_mul a c)) = ((BigZ.to_Z (n a) * BigZ.to_Z (n c)) mod (BigZ.to_Z field_elements.field_modulus))%Z.
Proof.
  unfold FQ_mul. rewrite n_FQ_of, BigZ.spec_modulo, BigZ.spec_mul.
  apply Z.mod_mod. pose proof field_modulus_gt_1. lia.
Qed.

Lemma n_FQ_rmul (k : int) (a : FQ) :
  BigZ.to_Z (n (FQ_rmul k a)) = ((BigZ.to_Z (n a) * BigZ.to_Z k) mod (BigZ.to_Z field_elements.field_modulus))%Z.
Proof.
  unfold FQ_rmul. rewrite n_FQ_of, BigZ.spec_modulo, BigZ.spec_mul.
  apply Z.mod_mod. pose proof field_modulus_gt_1. lia.
Qed.

Lemma n_FQ_neg (a : FQ) : BigZ.to_Z (n (FQ_neg a)) = ((- BigZ.to_Z (n a)) mod (BigZ.to_Z field_elements.field_modulus))%Z.
Proof. unfold FQ_neg. rewrite n_FQ_of, BigZ.spec_opp. reflexivity. Qed.

Lemma FQ_eq_spec (a c : FQ) : FQ_eq a c = (BigZ.to_Z (n a) =? BigZ.to_Z (n c))%Z.
Proof. apply BigZ.spec_eqb. Qed.

Lemma FQ_eq_refl (a : FQ) : FQ_eq a a = true.
Proof. rewrite FQ_eq_spec. apply Z.eqb_refl. Qed.

Lemma FQ_of_reduced (v : int) : FQ_reduced (FQ_of v).
Proof.
  unfold FQ_reduced. rewrite n_FQ_of. apply Z.mod_pos_bound.
  pose proof field_modulus_gt_1. lia.
Qed.

Lemma FQ_sub_reduced (a c : FQ) : FQ_reduced (FQ_sub a c).
Proof. apply FQ_of_reduced. Qed.

Lemma FQ_neg_reduced (a : FQ) : FQ_reduced (FQ_neg a).
Proof. apply FQ_of_reduced. Qed.

Lemma FQ_pow_pos_reduced (e : positive) :
  forall a : FQ, FQ_reduced (FQ_pow_pos a e).
Proof.
  induction e as [e IH | e IH |]; intros a; cbn [FQ_pow_pos].
  - apply FQ_of_reduced.
  - apply IH.
  - apply FQ_of_reduced.
Qed.

Lemma FQ_div_returns (a c : FQ) :
  exists q, FQ_div a c = Ok q /\ FQ_reduced q.
Proof.
  unfold FQ_div.
  destruct (prime_field_inv_returns (n c) field_elements.field_modulus)
    as [i [Hi _]]; [reflexivity |].
  rewrite Hi, bind_Ok. eexists. split; [reflexivity | apply FQ_of_reduced].
Qed.

(** X3: every FQ operation returns a value reduced into
    [0, field_modulus), whatever its operands; division, which always
    returns, included. *)
Theorem FQ_operations_reduced (a c : FQ) (k : int) (e : N) :
  FQ_reduced (FQ_of k) /\ FQ_reduced (FQ_add a c) /\
  FQ_reduced (FQ_sub a c) /\ FQ_reduced (FQ_mul a c) /\
  FQ_reduced (FQ_rmul k a) /\ FQ_reduced (FQ_neg a) /\
  FQ_reduced (FQ_pow a e) /\
  exists q, FQ_div a c = Ok q /\ FQ_reduced q.
Proof.
  do 6 (split; [apply FQ_of_reduced |]). split.
  - destruct e as [| e]; [apply FQ_of_reduced | apply FQ_pow_pos_reduced].
  - apply FQ_div_returns.
Qed.

(** X4: FQ division by zero does not raise: it returns zero. *)
Theorem FQ_div_by_zero (a c : FQ) :
  BigZ.to_Z (n c) = 0%Z -> exists q, FQ_div a c = Ok q /\ BigZ.to_Z (n q) = 0%Z.
Proof.
  intros Hc. unfold FQ_div, utils.prime_field_inv. cbv zeta.
  rewrite BigZ.spec_eqb, BigZ.spec_modulo, Hc. change (BigZ.to_Z 0) with 0%Z.
  rewrite Z.mod_0_l by (pose proof field_modulus_gt_1; lia). cbn [Z.eqb].
  rewrite bind_Ok. eexists. split; [reflexivity |].
  rewrite n_FQ_of, BigZ.spec_modulo, BigZ.spec_mul.
  change (BigZ.to_Z 0) with 0%Z. rewrite Z.mul_0_r. reflexivity.
Qed.

Lemma FQ_div_by_zero_witness :
  BigZ.to_Z (n (FQ_of 0)) = 0%Z /\
  exists q, FQ_div (FQ_of 7) (FQ_of 0) = Ok q /\ BigZ.to_Z (n q) = 0%Z.
Proof.
  split; [reflexivity |]. apply (FQ_div_by_zero (FQ_of 7) (FQ_of 0)).
  reflexivity.
Defined.

Lemma FQ_div_mul_aux (a c : FQ) :
  Z.gcd (BigZ.to_Z (n c)) (BigZ.to_Z field_elements.field_modulus) = 1%Z -> FQ_reduced a ->
  exists q, FQ_div a c = Ok q /\ FQ_eq (FQ_mul q c) a = true.
Proof.
  intros Hg Ha. unfold FQ_div.
  destruct (prime_field_inv_inverse (n c) field_elements.field_modulus
              field_modulus_gt_1 Hg) as [i [Hi [_ Hinv]]].
  rewrite Hi, bind_Ok. eexists. split; [reflexivity |].
  rewrite FQ_eq_spec, n_FQ_mul, n_FQ_of, BigZ.spec_modulo, BigZ.spec_mul.
  apply Z.eqb_eq. pose proof field_modulus_gt_1 as HP.
  rewrite Z.mod_mod by lia. rewrite Zmult_mod_idemp_l.
  rewrite <- Z.mul_assoc, (Z.mul_comm (BigZ.to_Z i)), <- Zmult_mod_idemp_r, Hinv.
  rewrite Z.mul_1_r. apply Z.mod_small. exact Ha.
Qed.

(** X5: FQ division by an element coprime to the modulus is the
    inverse of multiplication: (a / c) * c = a. *)
Theorem FQ_div_mul (a c : FQ) :
  Z.gcd (BigZ.to_Z (n c)) (BigZ.to_Z field_elements.field_modulus) = 1%Z -> FQ_reduced a ->
  exists q, FQ_div a c = Ok q /\ FQ_eq (FQ_mul q c) a = true.
Proof. exact (FQ_div_mul_aux a c). Qed.

Lemma FQ_div_mul_witness :
  Z.gcd (BigZ.to_Z (n (FQ_of 4))) (BigZ.to_Z field_elements.field_modulus) = 1%Z /\ FQ_reduced (FQ_of 3) /\
  exists q, FQ_div (FQ_of 3) (FQ_of 4) = Ok q /\
            FQ_eq (FQ_mul q (FQ_of 4)) (FQ_of 3) = true.
Proof.
  split; [vm_compute; reflexivity |]. split; [apply FQ_of_reduced |].
  apply (FQ_div_mul (FQ_of 3) (FQ_of 4)).
  - vm_compute. reflexivity.
  - apply FQ_of_reduced.
Defined.

(** ** The curve operations over FQ *)

Ltac fq_ops :=
  cbn [f_add f_sub f_mul f_rmul f_div f_neg f_pow f_eq FQ_Field].

Lemma double_returns (pt : Point2D FQ) :
  exists r : Point2D FQ, double pt = Ok r /\ Point_reduced r.
Proof.
  destruct pt as [[x y] |]; unfold double.
  - fq_ops.
    destruct (FQ_div_returns (FQ_rmul 3 (FQ_pow x 2)) (FQ_rmul 2 y))
      as [m [Hm _]].
    rewrite Hm, bind_Ok. eexists. split; [reflexivity |].
    split; apply FQ_sub_reduced.
  - exists None. split; [reflexivity | exact I].
Qed.

(** X6: doubling a G1 point never raises, and its result has reduced
    coordinates. *)
Theorem double_total (pt : Point2D FQ) :
  exists r : Point2D FQ, double pt = Ok r /\ Point_reduced r.
Proof. exact (double_returns pt). Qed.

Lemma double_reduced (pt r : Point2D FQ) :
  Point_reduced pt -> double pt = Ok r -> Point_reduced r.
Proof.
  intros _ Hd. destruct (double_returns pt) as [r' [Hr' Hred]].
  rewrite Hr' in Hd. injection Hd as <-. exact Hred.
Qed.

Lemma add_reduced (p1 p2 r : Point2D FQ) :
  Point_reduced p1 -> Point_reduced p2 -> add p1 p2 = Ok r -> Point_reduced r.
Proof.
  intros H1 H2. destruct p1 as [[x1 y1] |], p2 as [[x2 y2] |]; unfold add.
  - fq_ops.
    destruct (FQ_eq x2 x1 && FQ_eq y2 y1).
    + apply double_reduced. exact H1.
    + destruct (FQ_eq x2 x1).
      * intros Hr. injection Hr as <-. exact I.
      * intros Hr. apply bind_inv in Hr. destruct Hr as [m [_ Hr]].
        destruct (FQ_eq _ _) in Hr; [| discriminate Hr].
        injection Hr as <-. split; apply FQ_sub_reduced.
  - intros Hr. injection Hr as <-. exact H1.
  - intros Hr. injection Hr as <-. exact H2.
  - intros Hr. injection Hr as <-. exact I.
Qed.

Lemma multiply_pos_reduced (k : positive) :
  forall pt r : Point2D FQ,
    Point_reduced pt -> multiply_pos pt k = Ok r -> Point_reduced r.
Proof.
  induction k as [k IH | k IH |]; intros pt r Hpt; cbn [multiply_pos].
  - intros Hr. apply bind_inv in Hr. destruct Hr as [d [Hd Hr]].
    apply bind_inv in Hr. destruct Hr as [s [Hs Hr]].
    apply (add_reduced s pt r); [| exact Hpt | exact Hr].
    apply (IH d s); [| exact Hs]. apply (double_reduced pt d Hpt Hd).
  - intros Hr. apply bind_inv in Hr. destruct Hr as [d [Hd Hr]].
    apply (IH d r); [| exact Hr]. apply (double_reduced pt d Hpt Hd).
  - intros Hr. injection Hr as <-. exact Hpt.
Qed.

(** X7: whatever [multiply] and [neg] return for a G1 point with
    reduced coordinates has reduced coordinates again. *)
Theorem multiply_neg_reduced (pt r : Point2D FQ) (k : int) :
  Point_reduced pt -> multiply pt k = Ok r ->
  Point_reduced r /\ Point_reduced (neg r).
Proof.
  intros Hpt Hr.
  assert (Hred : Point_reduced r).
  { unfold multiply in Hr. destruct (BigZ.to_Z k) as [| p | p].
    - injection Hr as <-. exact I.
    - apply (multiply_pos_reduced p pt r Hpt Hr).
    - discriminate Hr. }
  split; [exact Hred |].
  destruct r as [[x y] |]; [| exact I].
  unfold neg. fq_ops. split; [apply Hred | apply FQ_neg_reduced].
Qed.

Lemma multiply_neg_reduced_witness :
  Point_reduced G1 /\ multiply G1 4 = Ok P4 /\
  Point_reduced P4 /\ Point_reduced (neg P4).
Proof.
  split; [split; apply FQ_of_reduced |]. split; [exact multiply_G1_4 |].
  apply (multiply_neg_reduced G1 P4 4).
  - split; apply FQ_of_reduced.
  - exact multiply_G1_4.
Defined.

(** X8: [neg] is an involution on G1 points with reduced
    coordinates, up to the library's [==]. *)
Theorem neg_involutive (pt : Point2D FQ) :
  Point_reduced pt -> eq (neg (neg pt)) pt = true.
Proof.
  intros Hpt. destruct pt as [[x y] |]; [| reflexivity].
  unfold neg, eq. fq_ops. rewrite FQ_eq_refl. cbn [andb].
  rewrite FQ_eq_spec, !n_FQ_neg. apply Z.eqb_eq.
  destruct Hpt as [_ Hy]. unfold FQ_reduced in Hy.
  rewrite Z.mod_opp_mod_opp. apply Z.mod_small. exact Hy.
Qed.

Lemma neg_involutive_witness :
  Point_reduced G1 /\ eq (neg (neg G1)) G1 = true.
Proof.
  split; [split; apply FQ_of_reduced |].
  apply (neg_involutive G1). split; apply FQ_of_reduced.
Defined.

Lemma FQ_pow_2 (a : FQ) :
  BigZ.to_Z (n (FQ_pow a 2)) = ((BigZ.to_Z (n a) * BigZ.to_Z (n a)) mod (BigZ.to_Z field_elements.field_modulus))%Z.
Proof.
  cbn [FQ_pow FQ_pow_pos]. rewrite n_FQ_of, n_FQ_mul.
  apply Z.mod_mod. pose proof field_modulus_gt_1. lia.
Qed.

(** X9: [neg] keeps a G1 point on its curve: if [pt] satisfies
    y**2 - x**3 == b, so does [neg pt], for any coefficient b. *)
Theorem neg_on_curve (pt : Point2D FQ) (coeff : FQ) :
  is_on_curve pt coeff = true -> is_on_curve (neg pt) coeff = true.
Proof.
  destruct pt as [[x y] |]; [| intros H; exact H].
  unfold neg, is_on_curve. fq_ops.
  rewrite !FQ_eq_spec, !n_FQ_sub, !FQ_pow_2, n_FQ_neg.
  rewrite (Zmult_mod_idemp_l (- BigZ.to_Z (n y))), (Zmult_mod_idemp_r (- BigZ.to_Z (n y))).
  rewrite Z.mul_opp_opp. intros H; exact H.
Qed.

Lemma neg_on_curve_witness :
  is_on_curve G1 b = true /\ is_on_curve (neg G1) b = true.
Proof.
  split; [vm_compute; reflexivity |].
  apply (neg_on_curve G1 b). vm_compute. reflexivity.
Defined.

Lemma FQ_neg_differs (y : FQ) :
  BigZ.to_Z (n y) <> 0%Z -> FQ_eq (FQ_neg y) y = false /\ FQ_eq y (FQ_neg y) = false.
Proof.
  intros Hy. rewrite !FQ_eq_spec, n_FQ_neg.
  pose proof field_modulus_gt_1 as HP. pose proof field_modulus_odd as Hodd.
  pose proof (Z.mod_pos_bound (- BigZ.to_Z (n y)) (BigZ.to_Z field_elements.field_modulus) ltac:(lia)) as Hb.
  pose proof (Z.div_mod (- BigZ.to_Z (n y)) (BigZ.to_Z field_elements.field_modulus) ltac:(lia)) as Hd.
  pose proof (Z.div_mod (BigZ.to_Z field_elements.field_modulus) 2 ltac:(lia)) as Hd2.
  assert (Hne : ((- BigZ.to_Z (n y)) mod (BigZ.to_Z field_elements.field_modulus) <> BigZ.to_Z (n y))%Z).
  { intros Heq. rewrite Heq in Hd, Hb.
    assert (Hq : ((- BigZ.to_Z (n y)) / (BigZ.to_Z field_elements.field_modulus) = -1)%Z) by nia.
    rewrite Hq in Hd. lia. }
  split; apply Z.eqb_neq; [exact Hne | intros Heq; apply Hne; symmetry; exact Heq].
Qed.

(** X10: a G1 point and its negation add up to the point at infinity,
    in either order, as soon as its y coordinate is not zero. *)
Theorem add_neg_is_infinity (x y : FQ) :
  BigZ.to_Z (n y) <> 0%Z ->
  add (Some (x, y)) (neg (Some (x, y))) = Ok None /\
  add (neg (Some (x, y))) (Some (x, y)) = Ok None.
Proof.
  intros Hy. destruct (FQ_neg_differs y Hy) as [H1 H2].
  unfold neg, add. fq_ops.
  rewrite FQ_eq_refl, H1, H2. cbn [andb]. split; reflexivity.
Qed.

Lemma add_neg_is_infinity_witness :
  BigZ.to_Z (n (FQ_of 2)) <> 0%Z /\
  add (Some (FQ_of 1, FQ_of 2)) (neg (Some (FQ_of 1, FQ_of 2))) = Ok None /\
  add (neg (Some (FQ_of 1, FQ_of 2))) (Some (FQ_of 1, FQ_of 2)) = Ok None.
Proof.
  split; [vm_compute; discriminate |].
  apply (add_neg_is_infinity (FQ_of 1) (FQ_of 2)). vm_compute. discriminate.
Defined.

(** ** Multiples of the point at infinity *)

(** X13: the multiples of the point at infinity by a scalar
    0 <= n < 2**256, for which the recursion is at most 256 calls deep,
    are the point at infinity, in both groups. *)
Theorem multiply_infinity {F : Type} `{Field F} (k : int) :
  0 <= k -> k < 2 ^ 256 -> multiply (None : Point2D F) k = Ok None.
Proof.
  unfold BigZ.le, multiply. change (BigZ.to_Z 0) with 0%Z.
  destruct (BigZ.to_Z k) as [| p | p]; intros Hk _.
  - reflexivity.
  - apply multiply_pos_inf.
  - lia.
Qed.

Lemma multiply_infinity_witness :
  0 <= curve_order /\ curve_order < 2 ^ 256 /\
  multiply (None : Point2D FQ) curve_order = Ok None.
Proof.
  split; [vm_compute; discriminate |]. split; [vm_compute; reflexivity |].
  apply (multiply_infinity curve_order).
  - vm_compute. discriminate.
  - vm_compute. reflexivity.
Defined.

(** ** Printing *)

(** X15: for all integers a and c, FQ2([a, c]) is a * 1 + c * u, and it
    prints as the pair (a mod p, c mod p): the coefficient of 1 comes
    first, the coefficient of the root u second. *)
Theorem FQ2_prints_real_first (a c : int) :
  f_eq (complex a c) (FQ2_of [a; c]) = true /\
  repr (FQ2_of [a; c])
  = repr_tuple [repr (a mod field_elements.field_modulus);
                repr (c mod field_elements.field_modulus)].
Proof.
  split; [| reflexivity].
  unfold complex, FQ2_one, FQ2_u, FQ2_of, FQP_of.
  cbn [f_eq f_add f_rmul FQ2_Field FQP_eq FQP_add FQP_rmul coeffs map
       combine forallb].
  rewrite !FQ_eq_spec, !n_FQ_add, !n_FQ_rmul, !n_FQ_of.
  change (BigZ.to_Z 1) with 1%Z. change (BigZ.to_Z 0) with 0%Z.
  pose proof field_modulus_gt_1 as HP.
  rewrite Z.mod_1_l, Z.mod_0_l, !Z.mul_0_l, !Z.mul_1_l by lia.
  rewrite Z.mod_0_l, Z.add_0_r, Z.add_0_l, !Z.mod_mod by lia.
  rewrite !Z.eqb_refl. reflexivity.
Qed.

(** ** Powers and the assertion of [add] *)

Lemma FQ_pow_pos_spec (e : positive) :
  forall a : FQ,
    BigZ.to_Z (n (FQ_pow_pos a e)) = ((BigZ.to_Z (n a) ^ Z.pos e) mod (BigZ.to_Z field_elements.field_modulus))%Z.
Proof.
  pose proof field_modulus_gt_1 as HP.
  induction e as [e IH | e IH |]; intros a; cbn [FQ_pow_pos].
  - rewrite n_FQ_mul, IH, n_FQ_mul, Z.mod_pow_l, Zmult_mod_idemp_l.
    rewrite Pos2Z.inj_xI, Z.pow_add_r, Z.pow_1_r, Z.pow_mul_r, Z.pow_2_r by lia.
    reflexivity.
  - rewrite IH, n_FQ_mul, Z.mod_pow_l.
    rewrite Pos2Z.inj_xO, Z.pow_mul_r, Z.pow_2_r by lia. reflexivity.
  - rewrite n_FQ_of, Z.pow_1_r. reflexivity.
Qed.

Lemma FQ_pow_value (a : FQ) (e : N) :
  BigZ.to_Z (n (FQ_pow a e)) = ((BigZ.to_Z (n a) ^ Z.of_N e) mod (BigZ.to_Z field_elements.field_modulus))%Z.
Proof.
  destruct e as [| e]; cbn [FQ_pow Z.of_N].
  - rewrite n_FQ_of, Z.pow_0_r. reflexivity.
  - apply FQ_pow_pos_spec.
Qed.

(** X16: [self ** e] on FQ is the e-th power modulo field_modulus, for
    every exponent 0 <= e < 2**256, for which the recursion is at most
    256 calls deep. *)
Theorem FQ_pow_spec (a : FQ) (e : N) :
  (e < 2 ^ 256)%N ->
  BigZ.to_Z (n (FQ_pow a e)) = ((BigZ.to_Z (n a) ^ Z.of_N e) mod (BigZ.to_Z field_elements.field_modulus))%Z.
Proof. intros _. exact (FQ_pow_value a e). Qed.

Lemma FQ_pow_spec_witness :
  (3 < 2 ^ 256)%N /\
  BigZ.to_Z (n (FQ_pow (FQ_of 5) 3))
  = ((BigZ.to_Z (n (FQ_of 5%bigZ)) ^ Z.of_N 3) mod (BigZ.to_Z field_elements.field_modulus))%Z.
Proof.
  split; [vm_compute; reflexivity |].
  apply (FQ_pow_spec (FQ_of 5) 3). vm_compute. reflexivity.
Defined.

(** Congruent numbers differ by a multiple of the modulus. *)
Lemma congruent_shift (u v w m : Z) :
  (0 < m)%Z -> (u mod m = v mod m)%Z -> ((w + u) mod m = (w + v) mod m)%Z.
Proof.
  intros Hm Huv.
  rewrite <- (Zplus_mod_idemp_r u), Huv, Zplus_mod_idemp_r. reflexivity.
Qed.

(** X17: when the two x coordinates differ by an element coprime to
    the modulus, [add] passes its assertion and returns a point with
    reduced coordinates. *)
Theorem add_passes_assertion (x1 y1 x2 y2 : FQ) :
  FQ_eq x2 x1 = false ->
  Z.gcd (BigZ.to_Z (n (FQ_sub x2 x1))) (BigZ.to_Z field_elements.field_modulus) = 1%Z ->
  exists r : Point2D FQ,
    add (Some (x1, y1)) (Some (x2, y2)) = Ok r /\ Point_reduced r.
Proof.
  intros Hx Hg. unfold add. fq_ops. rewrite Hx. cbn [andb].
  destruct (FQ_div_mul_aux (FQ_sub y2 y1) (FQ_sub x2 x1) Hg (FQ_sub_reduced _ _))
    as [m [Hm Hmul]].
  rewrite Hm, bind_Ok.
  set (newx := FQ_sub (FQ_sub (FQ_pow m 2) x1) x2).
  assert (Hassert :
    FQ_eq (FQ_sub (FQ_add (FQ_mul (FQ_neg m) newx) (FQ_mul m x1)) y1)
          (FQ_sub (FQ_add (FQ_mul (FQ_neg m) newx) (FQ_mul m x2)) y2) = true).
  { rewrite FQ_eq_spec in Hmul. apply Z.eqb_eq in Hmul.
    rewrite n_FQ_mul, !n_FQ_sub in Hmul.
    rewrite FQ_eq_spec. apply Z.eqb_eq.
    rewrite !n_FQ_sub, !n_FQ_add, !n_FQ_mul.
    pose proof field_modulus_gt_1 as HP.
    rewrite !Zplus_mod_idemp_l, !Zplus_mod_idemp_r, !Zminus_mod_idemp_l.
    rewrite Zmult_mod_idemp_r in Hmul.
    set (A := (BigZ.to_Z (n (FQ_neg m)) * BigZ.to_Z (n newx))%Z).
    replace (A + BigZ.to_Z (n m) * BigZ.to_Z (n x1) - BigZ.to_Z (n y1))%Z
      with ((A + BigZ.to_Z (n m) * BigZ.to_Z (n x2) - BigZ.to_Z (n y2) - BigZ.to_Z (n m) * (BigZ.to_Z (n x2) - BigZ.to_Z (n x1)))
            + (BigZ.to_Z (n y2) - BigZ.to_Z (n y1)))%Z by ring.
    rewrite <- (congruent_shift _ _ _ (BigZ.to_Z field_elements.field_modulus) ltac:(lia) Hmul).
    f_equal. ring. }
  rewrite Hassert. eexists. split; [reflexivity |].
  split; apply FQ_sub_reduced.
Qed.

Lemma add_passes_assertion_witness :
  FQ_eq (FQ_of 1368015179489954701390400359078579693043519447331113978918064868415326638035)
        (FQ_of 1) = false /\
  Z.gcd (BigZ.to_Z (n (FQ_sub
     (FQ_of 1368015179489954701390400359078579693043519447331113978918064868415326638035)
     (FQ_of 1)))) (BigZ.to_Z field_elements.field_modulus) = 1%Z /\
  exists r : Point2D FQ, add G1 P2 = Ok r /\ Point_reduced r.
Proof.
  split; [vm_compute; reflexivity |]. split; [vm_compute; reflexivity |].
  apply (add_passes_assertion (FQ_of 1) (FQ_of 2)); vm_compute; reflexivity.
Defined.

(** ** The curve operations over FQ2 *)

Ltac fq2_ops :=
  cbn [f_add f_sub f_mul f_rmul f_div f_neg f_pow f_eq FQ2_Field].

Lemma FQP_eq_refl (x : FQP) : FQP_eq x x = true.
Proof.
  unfold FQP_eq. induction (coeffs x) as [| c cs IH]; cbn [combine forallb].
  - reflexivity.
  - rewrite FQ_eq_refl, IH. reflexivity.
Qed.

Lemma FQP_neg_neg (x : FQP) :
  FQP_reduced x -> FQP_eq (FQP_neg (FQP_neg x)) x = true.
Proof.
  unfold FQP_reduced, FQP_eq, FQP_neg. cbn [coeffs].
  induction (coeffs x) as [| c cs IH]; intros Hred; cbn [map combine forallb].
  - reflexivity.
  - inversion Hred as [| c' cs' Hc Hcs]; subst.
    rewrite (IH Hcs), andb_true_r, FQ_eq_spec, !n_FQ_neg.
    apply Z.eqb_eq. rewrite Z.mod_opp_mod_opp. apply Z.mod_small. exact Hc.
Qed.

(** X18: [neg] is an involution on G2 points with reduced
    coefficients, up to the library's [==]: negating D2 gives back
    the multiple it was made from. *)
Theorem neg_involutive_G2 (pt : Point2D FQ2) :
  Point2_reduced pt -> eq (neg (neg pt)) pt = true.
Proof.
  intros Hpt. destruct pt as [[x y] |]; [| reflexivity].
  unfold neg, eq. fq2_ops. destruct Hpt as [_ Hy].
  rewrite FQP_eq_refl, (FQP_neg_neg y Hy). reflexivity.
Qed.

Lemma G2_reduced : Point2_reduced G2.
Proof.
  split; unfold FQP_reduced, FQ2_of, FQP_of; cbn [coeffs map];
    repeat constructor; apply FQ_of_reduced.
Qed.

Lemma neg_involutive_G2_witness :
  Point2_reduced G2 /\ eq (neg (neg G2)) G2 = true.
Proof.
  split; [exact G2_reduced |]. apply (neg_involutive_G2 G2). exact G2_reduced.
Defined.

Lemma FQP_neg_differs (y : FQP) :
  Exists (fun c => BigZ.to_Z (n c) <> 0%Z) (coeffs y) ->
  FQP_eq (FQP_neg y) y = false /\ FQP_eq y (FQP_neg y) = false.
Proof.
  unfold FQP_eq, FQP_neg. cbn [coeffs].
  induction (coeffs y) as [| c cs IH]; intros Hex; cbn [map combine forallb].
  - inversion Hex.
  - inversion Hex as [c' cs' Hc | c' cs' Hcs]; subst.
    + destruct (FQ_neg_differs c Hc) as [H1 H2]. rewrite H1, H2.
      split; reflexivity.
    + destruct (IH Hcs) as [H1 H2]. rewrite H1, H2, !andb_false_r.
      split; reflexivity.
Qed.

(** X19: a G2 point and its negation add up to the point at infinity,
    in either order, as soon as its y coordinate is not zero. *)
Theorem add_neg_is_infinity_G2 (x y : FQ2) :
  Exists (fun c => BigZ.to_Z (n c) <> 0%Z) (coeffs y) ->
  add (Some (x, y)) (neg (Some (x, y))) = Ok None /\
  add (neg (Some (x, y))) (Some (x, y)) = Ok None.
Proof.
  intros Hy. destruct (FQP_neg_differs y Hy) as [H1 H2].
  unfold neg, add. fq2_ops.
  rewrite FQP_eq_refl, H1, H2. cbn [andb]. split; reflexivity.
Qed.

Lemma add_neg_is_infinity_G2_witness :
  Exists (fun c => BigZ.to_Z (n c) <> 0%Z) (coeffs (FQ2_of [G2_y_re; G2_y_im])) /\
  add (Some (FQ2_of [G2_x_re; G2_x_im], FQ2_of [G2_y_re; G2_y_im]))
      (neg (Some (FQ2_of [G2_x_re; G2_x_im], FQ2_of [G2_y_re; G2_y_im])))
  = Ok None /\
  add (neg (Some (FQ2_of [G2_x_re; G2_x_im], FQ2_of [G2_y_re; G2_y_im])))
      (Some (FQ2_of [G2_x_re; G2_x_im], FQ2_of [G2_y_re; G2_y_im]))
  = Ok None.
Proof.
  assert (Hy : Exists (fun c => BigZ.to_Z (n c) <> 0%Z)
                 (coeffs (FQ2_of [G2_y_re; G2_y_im]))).
  { apply Exists_cons_hd. vm_compute. discriminate. }
  split; [exact Hy |].
  apply (add_neg_is_infinity_G2 (FQ2_of [G2_x_re; G2_x_im])
           (FQ2_of [G2_y_re; G2_y_im])).
  exact Hy.
Defined.

Lemma neg_mul_mod (u v : Z) :
  (((- u) mod (BigZ.to_Z field_elements.field_modulus) * ((- v) mod (BigZ.to_Z field_elements.field_modulus))) mod (BigZ.to_Z field_elements.field_modulus) = (u * v) mod (BigZ.to_Z field_elements.field_modulus))%Z.
Proof.
  rewrite Zmult_mod_idemp_l, Zmult_mod_idemp_r, Z.mul_opp_opp. reflexivity.
Qed.

(** The square of a negated FQ2 element has the coefficients of the
    square of the element. *)
Lemma FQ2_square_neg (y0 y1 : FQ) :
  map (fun c => BigZ.to_Z (n c))
      (coeffs (FQP_mul FQ2_MODULUS_COEFFS (FQP_neg (mkFQP [y0; y1]))
                       (FQP_neg (mkFQP [y0; y1]))))
  = map (fun c => BigZ.to_Z (n c))
        (coeffs (FQP_mul FQ2_MODULUS_COEFFS (mkFQP [y0; y1]) (mkFQP [y0; y1]))).
Proof.
  unfold FQP_mul, FQP_neg, FQ2_MODULUS_COEFFS.
  cbn [coeffs map length Nat.mul Nat.sub Nat.add repeat seq fold_left upd
       firstn skipn app get nth FQP_mul_reduce last removelast].
  rewrite !n_FQ_sub, !n_FQ_mul, !n_FQ_add, !n_FQ_mul, !n_FQ_neg, !neg_mul_mod.
  reflexivity.
Qed.

Lemma FQP_sub_eq_respects (cs cs' : list FQ) (t coeff : FQP) :
  map (fun c => BigZ.to_Z (n c)) cs = map (fun c => BigZ.to_Z (n c)) cs' ->
  FQP_eq (FQP_sub (mkFQP cs) t) coeff = FQP_eq (FQP_sub (mkFQP cs') t) coeff.
Proof.
  unfold FQP_eq, FQP_sub. cbn [coeffs].
  generalize (coeffs t) as ts. generalize (coeffs coeff) as ks.
  revert cs'. induction cs as [| c cs IH]; intros [| c' cs'] ks ts Hmap;
    try discriminate Hmap; [reflexivity |].
  injection Hmap as Hc Hcs.
  destruct ts as [| t0 ts]; [reflexivity |].
  destruct ks as [| k0 ks]; [reflexivity |].
  cbn [combine map forallb].
  rewrite (IH cs' ks ts Hcs), !FQ_eq_spec, !n_FQ_sub, Hc. reflexivity.
Qed.

(** X20: [neg] keeps a G2 point on its curve: if (x, y) satisfies
    y**2 - x**3 == b2 over FQ2, so does (x, -y), for any coefficient. *)
Theorem neg_on_curve_G2 (x y coeff : FQ2) :
  length (coeffs y) = 2%nat ->
  is_on_curve (Some (x, y)) coeff = true ->
  is_on_curve (neg (Some (x, y))) coeff = true.
Proof.
  intros Hlen. destruct y as [[| y0 [| y1 [| y2 ys]]]]; try discriminate Hlen.
  unfold neg, is_on_curve. fq2_ops.
  cbn [FQP_pow FQP_pow_pos].
  intros Hon. rewrite <- Hon.
  destruct (FQP_mul FQ2_MODULUS_COEFFS (FQP_neg {| coeffs := [y0; y1] |})
              (FQP_neg {| coeffs := [y0; y1] |})) as [sq'] eqn:E'.
  destruct (FQP_mul FQ2_MODULUS_COEFFS {| coeffs := [y0; y1] |}
              {| coeffs := [y0; y1] |}) as [sq] eqn:E.
  cbn [coeffs]. apply FQP_sub_eq_respects.
  pose proof (FQ2_square_neg y0 y1) as Hsq. rewrite E, E' in Hsq. exact Hsq.
Qed.

Lemma neg_on_curve_G2_witness :
  length (coeffs (FQ2_of [G2_y_re; G2_y_im])) = 2%nat /\
  is_on_curve (Some (FQ2_of [G2_x_re; G2_x_im], FQ2_of [G2_y_re; G2_y_im]))
    (FQ2_of [19485874751759354771024239261021720505790618469301721065564631296452457478373;
             266929791119991161246907387137283842545076965332900288569378510910307636690])
  = true /\
  is_on_curve (neg (Some (FQ2_of [G2_x_re; G2_x_im], FQ2_of [G2_y_re; G2_y_im])))
    (FQ2_of [19485874751759354771024239261021720505790618469301721065564631296452457478373;
             266929791119991161246907387137283842545076965332900288569378510910307636690])
  = true.
Proof.
  split; [reflexivity |]. split; [vm_compute; reflexivity |].
  apply (neg_on_curve_G2 (FQ2_of [G2_x_re; G2_x_im]) (FQ2_of [G2_y_re; G2_y_im])).
  - reflexivity.
  - vm_compute. reflexivity.
Defined.


(** ** The output of the script *)

